(** * Cloud-assembly manifest protocol and container-image asset handler

    A shallow embedding of two TypeScript sources:

    - the [Manifest] protocol class of the cloud-assembly schema package
      (version gate, JSON-schema validation, stack-tag casing patches,
      manifest load and save);
    - [container-images.ts] of cdk-assets ([ContainerImageAssetHandler] and
      [ContainerImageBuilder]).

    JavaScript values are modelled by the inductive [value]; objects are finite
    maps from property names to values, so that equality of objects is
    structural and independent of the order in which keys were inserted.
    Thrown exceptions are the left summand of [result].  Everything the
    sources import from elsewhere (semver, jsonschema, JSON, the registry
    client, the build engine, ...) is a field of an environment record. *)

From Stdlib Require Import Ascii.
From stdpp Require Import base option list strings pretty gmap fin_maps.

Open Scope string_scope.
Set Warnings "-register-all".

(** ** JavaScript values *)

Module JS.

(** Numbers are modelled by integers: the sources only test numbers for
    truthiness or print them. *)
Inductive value :=
| VUndefined
| VNull
| VBool (b : bool)
| VNum (n : Z)
| VStr (s : string)
| VArr (xs : list value)
| VObj (fields : gmap string value).

(** Exceptions.  [TypeError] is what the engine raises on a property read of
    [null]/[undefined], on a call of a non-function and on [in] applied to a
    primitive; its message is engine specific and not modelled.  [Error] is
    [new Error(message)].  [SystemError] is a failed file-system call. *)
Inductive error :=
| TypeError
| Error (message : string)
| SystemError (code : string).

Definition result (A : Type) : Type := error + A.

Definition ok {A} (a : A) : result A := inr a.
Definition throw {A} (e : error) : result A := inl e.

#[global] Instance result_ret : MRet result := λ A a, inr a.
#[global] Instance result_bind : MBind result :=
  λ A B f m, match m with inl e => inl e | inr a => f a end.
#[global] Instance result_fmap : FMap result :=
  λ A B f m, match m with inl e => inl e | inr a => inr (f a) end.

(** ToBoolean *)
Definition truthy (v : value) : bool :=
  match v with
  | VUndefined | VNull => false
  | VBool b => b
  | VNum n => negb (n =? 0)%Z
  | VStr s => negb (String.eqb s "")
  | VArr _ | VObj _ => true
  end.

Definition is_undefined (v : value) : bool :=
  match v with VUndefined => true | _ => false end.

Definition is_nullish (v : value) : bool :=
  match v with VUndefined | VNull => true | _ => false end.

(** ToString, as applied by a template literal. *)
Fixpoint ToString (v : value) : string :=
  match v with
  | VUndefined => "undefined"
  | VNull => "null"
  | VBool b => if b then "true" else "false"
  | VNum n => pretty n
  | VStr s => s
  | VArr xs =>
      String.concat ","
        (map (λ x, match x with VUndefined | VNull => "" | _ => ToString x end) xs)
  | VObj _ => "[object Object]"
  end.

(** [v.k], for a name [k] that is neither an array index nor a member
    inherited from a prototype (every name read by the sources is such). *)
Definition prop (v : value) (k : string) : result value :=
  match v with
  | VUndefined | VNull => throw TypeError
  | VObj m => ok (default VUndefined (m !! k))
  | _ => ok VUndefined
  end.

(** [v?.k] *)
Definition prop_opt (v : value) (k : string) : value :=
  match v with
  | VObj m => default VUndefined (m !! k)
  | _ => VUndefined
  end.

(** [k in v], for a name [k] as above. *)
Definition has_prop (k : string) (v : value) : result bool :=
  match v with
  | VObj m => ok (bool_decide (is_Some (m !! k)))
  | VArr _ => ok false
  | _ => throw TypeError
  end.

(** The own enumerable properties of a value, as copied by an object spread
    [{...v}] and listed by [Object.entries(v)]. *)
Definition own_props (v : value) : gmap string value :=
  match v with
  | VObj m => m
  | VArr xs => list_to_map (imap (λ i x, (pretty i, x)) xs)
  | VStr s =>
      list_to_map
        (imap (λ i c, (pretty i, VStr (String c EmptyString)))
           (String.list_ascii_of_string s))
  | _ => ∅
  end.

(** [xs.map(f)]: only arrays have a callable [map]. *)
Definition array_map (f : value → result value) (xs : value) : result value :=
  match xs with
  | VArr l => VArr <$> mapM f l
  | _ => throw TypeError
  end.

(** Apply [f] to every member of an object.  Objects are unordered here:
    when several members fail, the exception that surfaces is the one of the
    first failing key in the map's own order. *)
Definition map_members (f : value → result value) (m : gmap string value)
  : result (gmap string value) :=
  list_to_map <$> mapM (λ kv, pair kv.1 <$> f kv.2) (map_to_list m).

End JS.

(** ** Interfaces of the imported libraries *)

Module jsonschema.
Import JS.

(** [jsonschema.ValidationError]: [name] is the failing keyword, [schema] the
    violated schema (its id when it has one, the schema object otherwise) and
    [stack] the printable form of the error. *)
Record ValidationError := {
  name : string;
  schema : string + gmap string value;
  stack : string;
}.

End jsonschema.

Module Manifest.
Import JS.

(** What the [Manifest] class imports.  The JSON documents required at the
    top of the source ([cli-version.json], the three schemas,
    [version.json]), the two enum members of [cloud-assembly.ts] that the
    source compares against, and the library calls it makes.

    [jsonschema_visited instance schema] lists, in order, the pairs of an
    object inside [instance] and one of its property names on which
    [Validator.validate] invokes its [preValidateProperty] hook, and
    [jsonschema_errors instance schema] is the [errors] array of its
    result. *)
Record Env := {
  SCHEMA_VERSION_revision : N;
  CLI_VERSION_version : value;
  ASSETS_SCHEMA : value;
  ASSEMBLY_SCHEMA : value;
  INTEG_SCHEMA : value;
  AWS_CLOUDFORMATION_STACK : string;
  STACK_TAGS : string;
  semver_valid : value → option string;
  semver_major : string → N;
  jsonschema_visited : value → value → list (gmap string value * string);
  jsonschema_errors : value → value → list jsonschema.ValidationError;
  JSON_parse : string → string + value;
  JSON_stringify : value → N → string;
}.

Record LoadManifestOptions := {
  skipVersionCheck : option bool;
  skipEnumCheck : option bool;
  topoSort : option bool;
}.

(** [options?.flag] as a condition *)
Definition flag (options : option LoadManifestOptions)
    (f : LoadManifestOptions → option bool) : bool :=
  match options with
  | Some o => default false (f o)
  | None => false
  end.

Definition VERSION_MISMATCH : string := "Cloud assembly schema version mismatch".

Definition LF : string := String (Ascii.ascii_of_nat 10) EmptyString.

Definition DQUOTE : string := String (Ascii.ascii_of_nat 34) EmptyString.

Definition mapValues (xs : value) (fn : value → result value) : result value :=
  if truthy xs then VObj <$> map_members fn (own_props xs) else ok VUndefined.

Definition noUndefined (xs : gmap string value) : gmap string value :=
  filter (λ kv, is_undefined kv.2 = false) xs.

Definition stripEnumErrors (errors : list jsonschema.ValidationError)
  : list jsonschema.ValidationError :=
  List.filter
    (λ e, match jsonschema.schema e with
          | inl _ => true
          | inr s => negb (bool_decide (is_Some (s !! "enum")))
          end)
    errors.

(** [!== s] against a string constant *)
Definition differs_from (v : value) (s : string) : bool :=
  match v with
  | VStr s' => negb (String.eqb s' s)
  | _ => true
  end.

Definition validateAssumeRoleAdditionalOptions (instance : value) (key : string)
  : result unit :=
  if negb (String.eqb key "assumeRoleAdditionalOptions") then ok tt
  else
    assumeRoleOptions ← prop instance key;
    if truthy (prop_opt assumeRoleOptions "RoleArn") then
      throw (Error ("RoleArn is not allowed inside '" +:+ key +:+ "'"))
    else if truthy (prop_opt assumeRoleOptions "ExternalId") then
      throw (Error ("ExternalId is not allowed inside '" +:+ key +:+ "'"))
    else ok tt.

Section WithEnv.
Context (E : Env).

Definition version : string :=
  pretty (SCHEMA_VERSION_revision E) +:+ ".0.0".

Definition cliVersion : value :=
  let version := CLI_VERSION_version E in
  if truthy version then version else VUndefined.

Definition parseVersion (version : value) : result string :=
  match semver_valid E version with
  | None =>
      throw (Error ("Invalid semver string: " +:+ DQUOTE +:+ ToString version
                    +:+ DQUOTE))
  | Some ver => ok ver
  end.

(** [validator.validate(manifest, schema, {..., preValidateProperty})]: the
    hook runs on every property the library visits and what it throws
    propagates; otherwise the result carries the collected errors. *)
Definition Validator_validate (instance schema : value)
    (preValidateProperty : value → string → result unit)
  : result (list jsonschema.ValidationError) :=
  _ ← mapM (λ ik, preValidateProperty (VObj ik.1) ik.2)
           (jsonschema_visited E instance schema);
  ok (jsonschema_errors E instance schema).

Definition cliWarning (cliVersion : value) : string :=
  if truthy cliVersion then
    ". You need at least CLI version " +:+ ToString cliVersion
      +:+ " to read this manifest."
  else "".

Definition validate (manifest schema : value) (options : option LoadManifestOptions)
  : result unit :=
  maxSupported ← semver_major E <$> parseVersion (VStr version);
  manifest_version ← prop manifest "version";
  actual ← parseVersion manifest_version;
  if (maxSupported <? semver_major E actual)%N
     && negb (flag options skipVersionCheck) then
    let cliVersion := prop_opt manifest "minimumCliVersion" in
    throw (Error (VERSION_MISMATCH +:+ ": Maximum schema version supported is "
                  +:+ pretty maxSupported +:+ ".x.x, but found " +:+ actual
                  +:+ cliWarning cliVersion))
  else
    result ← Validator_validate manifest schema validateAssumeRoleAdditionalOptions;
    let errors :=
      if flag options skipEnumCheck then stripEnumErrors result else result in
    if (0 <? length errors)%nat then
      throw (Error ("Invalid assembly manifest:" +:+ LF
                    +:+ String.concat LF (map jsonschema.stack errors)))
    else ok tt.

(** The file system is the map from the paths of the existing files to their
    contents. *)
Definition saveManifest (manifest : value) (filePath : string) (schema : value)
    (preprocess : option (value → result value)) (fs : gmap string string)
  : result (gmap string string) :=
  let withVersion :=
    VObj (<["minimumCliVersion" := cliVersion]>
            (<["version" := VStr version]> (own_props manifest))) in
  _ ← validate withVersion schema None;
  withVersion ← match preprocess with
                | Some preprocess => preprocess withVersion
                | None => ok withVersion
                end;
  ok (<[filePath := JSON_stringify E withVersion 2]> fs).

Definition loadManifest (filePath : string) (schema : value)
    (preprocess : option (value → result value))
    (options : option LoadManifestOptions) (fs : gmap string string)
  : result value :=
  contents ← match fs !! filePath with
             | Some contents => ok contents
             | None => throw (SystemError "ENOENT")
             end;
  obj ← match JSON_parse E contents with
        | inr obj => ok obj
        | inl message =>
            throw (Error (message +:+ ", while parsing "
                          +:+ JSON_stringify E (VStr contents) 0))
        end;
  obj ← match preprocess with
        | Some preprocess => preprocess obj
        | None => ok obj
        end;
  _ ← validate obj schema options;
  ok obj.

Definition replaceStackTags (manifest : value) (fn : value → result value)
  : result value :=
  manifest_artifacts ← prop manifest "artifacts";
  artifacts ← mapValues manifest_artifacts (λ artifact,
    artifact_type ← prop artifact "type";
    if differs_from artifact_type (AWS_CLOUDFORMATION_STACK E) then ok artifact
    else
      artifact_metadata ← prop artifact "metadata";
      metadata ← mapValues artifact_metadata (λ metadataEntries,
        array_map (λ metadataEntry,
          metadataEntry_type ← prop metadataEntry "type";
          if differs_from metadataEntry_type (STACK_TAGS E)
             || negb (truthy (prop_opt metadataEntry "data"))
          then ok metadataEntry
          else
            data ← fn (prop_opt metadataEntry "data");
            ok (VObj (<["data" := data]> (own_props metadataEntry))))
          metadataEntries);
      ok (VObj (noUndefined (<["metadata" := metadata]> (own_props artifact)))));
  ok (VObj (noUndefined (<["artifacts" := artifacts]> (own_props manifest)))).

Definition readTag (diskTag : value) : result value :=
  Key ← prop diskTag "Key";
  Value ← prop diskTag "Value";
  ok (VObj (<["key" := Key]> (<["value" := Value]> ∅))).

Definition writeTag (memTag : value) : result value :=
  capitalised ← has_prop "Key" memTag;
  if capitalised : bool then ok memTag
  else
    key ← prop memTag "key";
    value ← prop memTag "value";
    ok (VObj (<["Key" := key]> (<["Value" := value]> ∅))).

Definition patchStackTagsOnRead (manifest : value) : result value :=
  replaceStackTags manifest (array_map readTag).

Definition patchStackTagsOnWrite (manifest : value) : result value :=
  replaceStackTags manifest (array_map writeTag).

Definition saveAssemblyManifest (manifest : value) (filePath : string)
    (fs : gmap string string) : result (gmap string string) :=
  saveManifest manifest filePath (ASSEMBLY_SCHEMA E) (Some patchStackTagsOnWrite) fs.

Definition loadAssemblyManifest (filePath : string)
    (options : option LoadManifestOptions) (fs : gmap string string) : result value :=
  loadManifest filePath (ASSEMBLY_SCHEMA E) (Some patchStackTagsOnRead) options fs.

Definition saveAssetManifest (manifest : value) (filePath : string)
    (fs : gmap string string) : result (gmap string string) :=
  saveManifest manifest filePath (ASSETS_SCHEMA E) (Some patchStackTagsOnRead) fs.

Definition loadAssetManifest (filePath : string) (fs : gmap string string)
  : result value :=
  loadManifest filePath (ASSETS_SCHEMA E) None None fs.

Definition saveIntegManifest (manifest : value) (filePath : string)
    (fs : gmap string string) : result (gmap string string) :=
  saveManifest manifest filePath (INTEG_SCHEMA E) None fs.

Definition loadIntegManifest (filePath : string) (fs : gmap string string)
  : result value :=
  manifest ← loadManifest filePath (INTEG_SCHEMA E) None None fs;
  let testCases := prop_opt manifest "testCases" in
  ok (VObj (<["testCases" := if is_nullish testCases then VArr [] else testCases]>
              (own_props manifest))).

Definition save := saveAssemblyManifest.

Definition load (filePath : string) (fs : gmap string string) : result value :=
  loadAssemblyManifest filePath None fs.

End WithEnv.

End Manifest.

(** ** The container-image asset handler *)

Module ContainerImages.

(** A thrown value [e], with its [e.name] and [e.message]. *)
Record exception := { name : string; message : string }.

Definition Error (message : string) : exception :=
  {| name := "Error"; message := message |}.

Inductive EventType := CHECK | FOUND | CACHED | BUILD | UPLOAD | DEBUG.

(** [DockerImageDestination]: the members this source reads.  Placeholder
    resolution and the client options are computed from the destination by
    collaborators. *)
Record DockerImageDestination := {
  repositoryName : string;
  imageTag : string;
}.

Record DockerCacheOption := {
  cache_type : string;
  cache_params : list (string * string);
}.

Record DockerImageSource := {
  directory : option string;
  executable : option (list string);
  dockerBuildArgs : option (list (string * string));
  dockerBuildSecrets : option (list (string * string));
  dockerBuildSsh : option string;
  dockerBuildTarget : option string;
  dockerFile : option string;
  networkMode : option string;
  platform : option string;
  dockerOutputs : option (list string);
  cacheFrom : option (list DockerCacheOption);
  cacheTo : option DockerCacheOption;
  cacheDisabled : option bool;
}.

Record DestinationIdentifier := {
  assetId : string;
  destinationId : string;
}.

Record DockerImageManifestEntry := {
  id : DestinationIdentifier;
  source : DockerImageSource;
  destination : DockerImageDestination;
}.

(** Client and engine handles are opaque identities. *)
Definition IECRClient := N.
Definition Docker := N.

Module SDK.

Record Account := { accountId : option string }.

Record Repository := { repositoryUri : option string }.

Record DescribeRepositoriesResponse := { repositories : option (list Repository) }.

End SDK.

Record BuildOptions := {
  build_directory : string;
  build_tag : string;
  buildArgs : option (list (string * string));
  buildSecrets : option (list (string * string));
  buildSsh : option string;
  build_target : option string;
  build_file : option string;
  build_networkMode : option string;
  build_platform : option string;
  build_outputs : option (list string);
  build_cacheFrom : option (list DockerCacheOption);
  build_cacheTo : option DockerCacheOption;
  build_cacheDisabled : option bool;
}.

Record IHandlerOptions := { subprocessOutputDestination : string }.

(** Every call the handler makes on a collaborator, with its arguments.
    [aws_ecrClient destination quiet] stands for
    [host.aws.ecrClient({...destinationToClientOptions(destination), quiet})]. *)
Inductive Call :=
| replaceAwsPlaceholders (destination : DockerImageDestination)
| aws_ecrClient (destination : DockerImageDestination) (quiet : option bool)
| aws_discoverCurrentAccount
| ecr_describeRepositories (ecr : IECRClient) (repositoryNames : list string)
| ecr_describeImages (ecr : IECRClient) (repositoryName : string)
    (imageTags : list string)
| host_emitMessage (type : EventType) (m : string)
| dockerFactory_forBuild (repoUri : string) (ecr : IECRClient)
    (subprocessOutputDestination : string)
| dockerFactory_forEcrPush (repoUri : string) (ecr : IECRClient)
    (subprocessOutputDestination : string)
| docker_exists (docker : Docker) (tag : string)
| docker_build (docker : Docker) (options : BuildOptions)
| docker_tag (docker : Docker) (sourceTag targetTag : string)
| docker_push (docker : Docker) (tag : string)
| shell (command : list string) (cwd : string) (subprocessOutputDestination : string).

(** The collaborators.  Each answers a call after the calls made so far, by
    a value or by a thrown exception; [host_aborted] is the value of
    [host.aborted] after the calls made so far.  Emitting a progress
    message has no answer. *)
Record Env := {
  host_aborted : list Call → bool;
  on_replaceAwsPlaceholders :
    list Call → DockerImageDestination → exception + DockerImageDestination;
  on_ecrClient :
    list Call → DockerImageDestination → option bool → exception + IECRClient;
  on_discoverCurrentAccount : list Call → exception + option SDK.Account;
  on_describeRepositories :
    list Call → IECRClient → list string
    → exception + SDK.DescribeRepositoriesResponse;
  on_describeImages :
    list Call → IECRClient → string → list string → exception + unit;
  on_forBuild : list Call → string → IECRClient → string → exception + Docker;
  on_forEcrPush : list Call → string → IECRClient → string → exception + Docker;
  on_exists : list Call → Docker → string → exception + bool;
  on_build : list Call → Docker → BuildOptions → exception + unit;
  on_tag : list Call → Docker → string → string → exception + unit;
  on_push : list Call → Docker → string → exception + unit;
  on_shell : list Call → list string → string → string → exception + string;
  path_resolve : string → string → string;
  JSON_stringify : DockerImageSource → string;
}.

Record ContainerImageAssetHandlerInit := {
  ecr : IECRClient;
  repoUri : string;
  imageUri : string;
  destinationAlreadyExists : bool;
}.

(** The mutable state: the handler's [init] member and the calls made so far. *)
Record State := {
  init : option ContainerImageAssetHandlerInit;
  calls : list Call;
}.

Definition M (A : Type) : Type := State → (exception + A) * State.

#[global] Instance M_ret : MRet M := λ A a s, (inr a, s).
#[global] Instance M_bind : MBind M :=
  λ A B f m s, match m s with
               | (inr a, s') => f a s'
               | (inl e, s') => (inl e, s')
               end.

Definition throw {A} (e : exception) : M A := λ s, (inl e, s).

Definition try_catch {A} (body : M A) (handler : exception → M A) : M A :=
  λ s, match body s with
       | (inl e, s') => handler e s'
       | r => r
       end.

Definition get_init : M (option ContainerImageAssetHandlerInit) :=
  λ s, (inr (init s), s).

Definition set_init (i : ContainerImageAssetHandlerInit) : M unit :=
  λ s, (inr tt, {| init := Some i; calls := calls s |}).

(** Make the call [c], answered by [answer] applied to the calls so far. *)
Definition call {A} (c : Call) (answer : list Call → exception + A) : M A :=
  λ s, (answer (calls s), {| init := init s; calls := calls s ++ [c] |}).

(** ASCII range of [String.prototype.toLowerCase] and
    [String.prototype.trim]. *)
Definition lower (c : Ascii.ascii) : Ascii.ascii :=
  let n := Ascii.nat_of_ascii c in
  if (65 <=? n)%nat && (n <=? 90)%nat then Ascii.ascii_of_nat (n + 32) else c.

Fixpoint toLowerCase (s : string) : string :=
  match s with
  | EmptyString => EmptyString
  | String c s => String (lower c) (toLowerCase s)
  end.

Definition is_space (c : Ascii.ascii) : bool :=
  let n := Ascii.nat_of_ascii c in
  ((9 <=? n)%nat && (n <=? 13)%nat) || (n =? 32)%nat.

Fixpoint trimStart (s : string) : string :=
  match s with
  | String c s' => if is_space c then trimStart s' else s
  | EmptyString => EmptyString
  end.

Definition trim (s : string) : string :=
  String.rev (trimStart (String.rev (trimStart s))).

Section WithEnv.
Context (E : Env).

Definition aborted : M bool := λ s, (inr (host_aborted E (calls s)), s).

Definition emitMessage (type : EventType) (m : string) : M unit :=
  call (host_emitMessage type m) (λ _, inr tt).

Definition imageExists (ecr : IECRClient) (repositoryName imageTag : string) : M bool :=
  try_catch
    (_ ← call (ecr_describeImages ecr repositoryName [imageTag])
              (λ h, on_describeImages E h ecr repositoryName [imageTag]);
     mret true)
    (λ e, if negb (String.eqb (name e) "ImageNotFoundException") then throw e
          else mret false).

Definition repositoryUri (ecr : IECRClient) (repositoryName : string)
  : M (option string) :=
  try_catch
    (response ← call (ecr_describeRepositories ecr [repositoryName])
                     (λ h, on_describeRepositories E h ecr [repositoryName]);
     mret (head (default [] (SDK.repositories response)) ≫= SDK.repositoryUri))
    (λ e, if negb (String.eqb (name e) "RepositoryNotFoundException") then throw e
          else mret None).

(** Truthiness of an optional string. *)
Definition nonempty (s : option string) : bool :=
  match s with
  | Some s => negb (String.eqb s "")
  | None => false
  end.

Section Handler.
Context (workDir : string) (asset : DockerImageManifestEntry)
  (options : IHandlerOptions).

Definition handler_destinationAlreadyExists (ecr : IECRClient)
    (destination : DockerImageDestination) (imageUri : string) : M bool :=
  _ ← emitMessage CHECK ("Check " +:+ imageUri);
  found ← imageExists ecr (repositoryName destination) (imageTag destination);
  if found : bool then
    _ ← emitMessage FOUND ("Found " +:+ imageUri);
    mret true
  else mret false.

Definition initOnce (quiet : option bool) : M ContainerImageAssetHandlerInit :=
  this_init ← get_init;
  match this_init with
  | Some i => mret i
  | None =>
      destination ← call (replaceAwsPlaceholders (destination asset))
                         (λ h, on_replaceAwsPlaceholders E h (destination asset));
      ecr ← call (aws_ecrClient destination quiet)
                 (λ h, on_ecrClient E h destination quiet);
      repoUri ← repositoryUri ecr (repositoryName destination);
      if negb (nonempty repoUri) then
        account ← call aws_discoverCurrentAccount (on_discoverCurrentAccount E);
        throw (Error ("No ECR repository named '" +:+ repositoryName destination
                      +:+ "' in account "
                      +:+ default "undefined" (account ≫= SDK.accountId)
                      +:+ ". Is this account bootstrapped?"))
      else
        let repoUri := default "" repoUri in
        let imageUri := repoUri +:+ ":" +:+ imageTag destination in
        exists_ ← handler_destinationAlreadyExists ecr destination imageUri;
        let i := {| imageUri := imageUri; ecr := ecr; repoUri := repoUri;
                    destinationAlreadyExists := exists_ |} in
        _ ← set_init i;
        mret i
  end.

(** *** ContainerImageBuilder *)

Section Builder.
Context (docker : Docker).

Definition isImageCached (localTagName : string) : M bool :=
  cached ← call (docker_exists docker localTagName)
                (λ h, on_exists E h docker localTagName);
  if cached : bool then
    _ ← emitMessage CACHED ("Cached " +:+ localTagName);
    mret true
  else mret false.

Definition buildImage (localTagName : string) : M unit :=
  let source := source asset in
  if negb (nonempty (directory source)) then
    throw (Error ("'directory' is expected in the DockerImage asset source, got: "
                  +:+ JSON_stringify E source))
  else
    let fullPath := path_resolve E workDir (default "" (directory source)) in
    _ ← emitMessage BUILD ("Building Docker image at " +:+ fullPath);
    let build_options :=
      {| build_directory := fullPath;
         build_tag := localTagName;
         buildArgs := dockerBuildArgs source;
         buildSecrets := dockerBuildSecrets source;
         buildSsh := dockerBuildSsh source;
         build_target := dockerBuildTarget source;
         build_file := dockerFile source;
         build_networkMode := networkMode source;
         build_platform := platform source;
         build_outputs := dockerOutputs source;
         build_cacheFrom := cacheFrom source;
         build_cacheTo := cacheTo source;
         build_cacheDisabled := cacheDisabled source |} in
    call (docker_build docker build_options) (λ h, on_build E h docker build_options).

Definition buildDirectoryAsset : M (option string) :=
  let localTagName := "cdkasset-" +:+ toLowerCase (assetId (id asset)) in
  cached ← isImageCached localTagName;
  if negb cached then
    is_aborted ← aborted;
    if is_aborted : bool then mret None
    else
      _ ← buildImage localTagName;
      mret (Some localTagName)
  else mret (Some localTagName).

Definition buildExternalAsset (executable : list string) (cwd : option string)
  : M (option string) :=
  let assetPath := default workDir cwd in
  _ ← emitMessage BUILD ("Building Docker image using command '"
                         +:+ String.concat "," executable +:+ "'");
  is_aborted ← aborted;
  if is_aborted : bool then mret None
  else
    out ← call (shell executable assetPath "ignore")
               (λ h, on_shell E h executable assetPath "ignore");
    mret (Some (trim out)).

Definition builder_build : M (option string) :=
  match executable (source asset) with
  | Some executable => buildExternalAsset executable None
  | None => buildDirectoryAsset
  end.

End Builder.

(** *** ContainerImageAssetHandler *)

Definition build : M unit :=
  initOnce ← initOnce None;
  if destinationAlreadyExists initOnce then mret tt
  else
    is_aborted ← aborted;
    if is_aborted : bool then mret tt
    else
      dockerForBuilding ←
        call (dockerFactory_forBuild (repoUri initOnce) (ecr initOnce)
                (subprocessOutputDestination options))
             (λ h, on_forBuild E h (repoUri initOnce) (ecr initOnce)
                     (subprocessOutputDestination options));
      localTagName ← builder_build dockerForBuilding;
      match localTagName with
      | None => mret tt
      | Some localTagName =>
          is_aborted ← aborted;
          if is_aborted : bool then mret tt
          else
            is_aborted ← aborted;
            if is_aborted : bool then mret tt
            else
              call (docker_tag dockerForBuilding localTagName (imageUri initOnce))
                   (λ h, on_tag E h dockerForBuilding localTagName (imageUri initOnce))
      end.

Definition isPublished : M bool :=
  try_catch
    (initOnce ← initOnce (Some true);
     mret (destinationAlreadyExists initOnce))
    (λ e, _ ← emitMessage DEBUG (message e);
          mret false).

Definition publish : M unit :=
  initOnce ← initOnce None;
  if destinationAlreadyExists initOnce then mret tt
  else
    is_aborted ← aborted;
    if is_aborted : bool then mret tt
    else
      dockerForPushing ←
        call (dockerFactory_forEcrPush (repoUri initOnce) (ecr initOnce)
                (subprocessOutputDestination options))
             (λ h, on_forEcrPush E h (repoUri initOnce) (ecr initOnce)
                     (subprocessOutputDestination options));
      is_aborted ← aborted;
      if is_aborted : bool then mret tt
      else
        _ ← emitMessage UPLOAD ("Push " +:+ imageUri initOnce);
        call (docker_push dockerForPushing (imageUri initOnce))
             (λ h, on_push E h dockerForPushing (imageUri initOnce)).

End Handler.
End WithEnv.

End ContainerImages.

(** ** Vocabulary of the statements about [Manifest]

    Names for parts of the functions above, used to state their properties. *)

Module ManifestViews.
Import JS Manifest.

(** The message of the exception thrown for a forbidden member. *)
Definition forbidden_field_message (member : string) : string :=
  member +:+ " is not allowed inside 'assumeRoleAdditionalOptions'".

(** The message of the exception thrown by the version gate. *)
Definition mismatch_message (maxSupported : N) (actual : string) (cliVersion : value)
  : string :=
  VERSION_MISMATCH +:+ ": Maximum schema version supported is "
    +:+ pretty maxSupported +:+ ".x.x, but found " +:+ actual
    +:+ (if truthy cliVersion then
           ". You need at least CLI version " +:+ ToString cliVersion
             +:+ " to read this manifest."
         else "").

(** The errors that survive enum relaxation. *)
Definition retained (options : option LoadManifestOptions)
    (errors : list jsonschema.ValidationError) : list jsonschema.ValidationError :=
  if flag options skipEnumCheck then stripEnumErrors errors else errors.

(** An error reported against a schema object that has an [enum] member. *)
Definition at_enum_schema (e : jsonschema.ValidationError) : Prop :=
  ∃ s, jsonschema.schema e = inr s ∧ is_Some (s !! "enum").

(** The object that [saveManifest] builds before validation. *)
Definition withVersion (E : Env) (manifest : value) : value :=
  VObj (<["minimumCliVersion" := cliVersion E]>
          (<["version" := VStr (version E)]> (own_props manifest))).

(** The second stage of [validate]: structural validation. *)
Definition structural (E : Env) (manifest schema : value)
    (options : option LoadManifestOptions) : result unit :=
  result ← Validator_validate E manifest schema validateAssumeRoleAdditionalOptions;
  if (0 <? length (retained options result))%nat then
    throw (Error ("Invalid assembly manifest:" +:+ LF
                  +:+ String.concat LF (map jsonschema.stack (retained options result))))
  else ok tt.

(** Both versions parse and the version gate lets the candidate through. *)
Definition passes_gate (E : Env) (manifest : value)
    (options : option LoadManifestOptions) : Prop :=
  ∃ supported candidate actual,
    semver_valid E (VStr (version E)) = Some supported
    ∧ prop manifest "version" = inr candidate
    ∧ semver_valid E candidate = Some actual
    ∧ ((semver_major E actual ≤ semver_major E supported)%N
       ∨ flag options skipVersionCheck = true).

(** In-memory and on-disk stack tags. *)
Definition memTag (kv : value * value) : value :=
  VObj (<["key" := kv.1]> (<["value" := kv.2]> ∅)).

Definition diskTag (kv : value * value) : value :=
  VObj (<["Key" := kv.1]> (<["Value" := kv.2]> ∅)).

(** The two functions that [replaceStackTags] maps over the metadata
    entries and over the artifacts. *)
Definition entry_step (E : Env) (fn : value → result value) (metadataEntry : value)
  : result value :=
  metadataEntry_type ← prop metadataEntry "type";
  if differs_from metadataEntry_type (STACK_TAGS E)
     || negb (truthy (prop_opt metadataEntry "data"))
  then ok metadataEntry
  else
    data ← fn (prop_opt metadataEntry "data");
    ok (VObj (<["data" := data]> (own_props metadataEntry))).

Definition artifact_step (E : Env) (fn : value → result value) (artifact : value)
  : result value :=
  artifact_type ← prop artifact "type";
  if differs_from artifact_type (AWS_CLOUDFORMATION_STACK E) then ok artifact
  else
    artifact_metadata ← prop artifact "metadata";
    metadata ← mapValues artifact_metadata (array_map (entry_step E fn));
    ok (VObj (noUndefined (<["metadata" := metadata]> (own_props artifact)))).

(** [G] undoes [F] on the values that satisfy [Q]. *)
Definition undoes (Q : value → Prop) (F G : value → result value) : Prop :=
  ∀ v, Q v → ∃ v', F v = inr v' ∧ G v' = inr v.

(** Well-formed manifests of the object model, for a property [P] of the
    stack-tag payloads: no member of the manifest or of a stack artifact is
    [undefined]; [artifacts], when present, is an object of objects; the
    [metadata] of a stack artifact, when present, is an object of arrays of
    objects; and every truthy payload of a stack-tags entry satisfies [P]. *)
Definition no_undefined (fields : gmap string value) : Prop :=
  map_Forall (λ _ v, is_undefined v = false) fields.

Definition wf_entry (E : Env) (P : value → Prop) (entry : value) : Prop :=
  ∃ fields,
    entry = VObj fields
    ∧ (fields !! "type" = Some (VStr (STACK_TAGS E)) →
       ∀ data, fields !! "data" = Some data → truthy data = true → P data).

Definition wf_metadata (E : Env) (P : value → Prop) (paths : gmap string value)
  : Prop :=
  map_Forall (λ _ v, ∃ entries, v = VArr entries ∧ Forall (wf_entry E P) entries)
    paths.

Definition wf_artifact (E : Env) (P : value → Prop) (artifact : value) : Prop :=
  ∃ fields,
    artifact = VObj fields
    ∧ (fields !! "type" = Some (VStr (AWS_CLOUDFORMATION_STACK E)) →
       no_undefined fields
       ∧ (fields !! "metadata" = None
          ∨ ∃ paths, fields !! "metadata" = Some (VObj paths) ∧ wf_metadata E P paths)).

Definition wf_manifest (E : Env) (P : value → Prop) (manifest : value) : Prop :=
  ∃ fields,
    manifest = VObj fields
    ∧ no_undefined fields
    ∧ (fields !! "artifacts" = None
       ∨ ∃ artifacts,
           fields !! "artifacts" = Some (VObj artifacts)
           ∧ map_Forall (λ _ artifact, wf_artifact E P artifact) artifacts).

(** Payloads of the object model: sequences of [{key, value}] pairs. *)
Definition memTags (tags : value) : Prop :=
  ∃ kvs, tags = VArr (memTag <$> kvs).

End ManifestViews.

(** ** Concrete collaborators

    Small executable instances of the environments, on which the statements
    below are evaluated. *)

Module Fixtures.
Import JS.

(** Plain [MAJOR.MINOR.PATCH] versions: the fragment of the semver grammar
    without prerelease and build tags. *)
Definition digit (c : Ascii.ascii) : option N :=
  let n := Ascii.nat_of_ascii c in
  if (48 <=? n)%nat && (n <=? 57)%nat then Some (N.of_nat (n - 48)) else None.

Fixpoint digits (acc : N) (s : string) : option N :=
  match s with
  | EmptyString => Some acc
  | String c s => d ← digit c; digits (10 * acc + d)%N s
  end.

Definition numeric_identifier (s : string) : option N :=
  match s with
  | EmptyString => None
  | String "0"%char (String _ _) => None
  | _ => digits 0 s
  end.

Fixpoint split_dots (cur : string) (s : string) : list string :=
  match s with
  | EmptyString => [cur]
  | String "."%char s => cur :: split_dots "" s
  | String c s => split_dots (cur +:+ String c "") s
  end.

Definition plain_semver (s : string) : option (N * N * N) :=
  match split_dots "" s with
  | [a; b; c] =>
      major ← numeric_identifier a;
      minor ← numeric_identifier b;
      patch ← numeric_identifier c;
      Some (major, minor, patch)
  | _ => None
  end.

Definition semver_valid (v : value) : option string :=
  match v with
  | VStr s => match plain_semver s with Some _ => Some s | None => None end
  | _ => None
  end.

Definition semver_major (s : string) : N :=
  match plain_semver s with
  | Some (major, _, _) => major
  | None => 0
  end.

(** A compact printer in the manner of [JSON.stringify]: members whose
    value is [undefined] are left out, members come in the order of the
    map, and strings are not escaped. *)
Definition quoted (s : string) : string :=
  Manifest.DQUOTE +:+ s +:+ Manifest.DQUOTE.

Fixpoint print (v : value) : string :=
  match v with
  | VUndefined | VNull => "null"
  | VBool b => if b then "true" else "false"
  | VNum n => pretty n
  | VStr s => quoted s
  | VArr xs => "[" +:+ String.concat "," (map print xs) +:+ "]"
  | VObj m =>
      let members := map_to_list ((λ v, (is_undefined v, print v)) <$> m) in
      "{" +:+ String.concat ","
                (map (λ kv, quoted kv.1 +:+ ":" +:+ kv.2.2)
                   (List.filter (λ kv, negb kv.2.1) members))
          +:+ "}"
  end.

(** A validator that visits the given properties and reports the given
    errors, whatever the instance. *)
Definition manifest_env (visited : list (gmap string value * string))
    (errors : list jsonschema.ValidationError)
    (documents : gmap string value) : Manifest.Env :=
  {| Manifest.SCHEMA_VERSION_revision := 48;
     Manifest.CLI_VERSION_version := VStr "2.1100.0";
     Manifest.ASSETS_SCHEMA := VObj ∅;
     Manifest.ASSEMBLY_SCHEMA := VObj ∅;
     Manifest.INTEG_SCHEMA := VObj ∅;
     Manifest.AWS_CLOUDFORMATION_STACK := "aws:cloudformation:stack";
     Manifest.STACK_TAGS := "aws:cdk:stack-tags";
     Manifest.semver_valid := semver_valid;
     Manifest.semver_major := semver_major;
     Manifest.jsonschema_visited := λ _ _, visited;
     Manifest.jsonschema_errors := λ _ _, errors;
     Manifest.JSON_parse := λ s,
       match documents !! s with
       | Some v => inr v
       | None => inl "Unexpected token"
       end;
     Manifest.JSON_stringify := λ v _, print v |}.

Definition obj (l : list (string * value)) : value := VObj (list_to_map l).

Definition some_role : value :=
  obj [("RoleArn", VStr "arn:aws:iam::123456789012:role/deploy")].

Definition empty_role : value := obj [("RoleArn", VStr "")].

Definition old_manifest : value :=
  obj [("version", VStr "36.0.0"); ("artifacts", obj [])].

Definition new_manifest : value :=
  obj [("version", VStr "49.1.0"); ("minimumCliVersion", VStr "2.2000.0");
       ("artifacts", obj [])].

(** The [properties] of a stack artifact whose
    [assumeRoleAdditionalOptions] is [role], and a manifest of the given
    version with one such stack. *)
Definition stack_properties (role : value) : gmap string value :=
  list_to_map [("templateFile", VStr "Stack.template.json");
               ("assumeRoleAdditionalOptions", role)].

Definition manifest_with_role (version : string) (role : value) : value :=
  obj [("version", VStr version);
       ("artifacts",
        obj [("Stack",
              obj [("type", VStr "aws:cloudformation:stack");
                   ("properties", VObj (stack_properties role))])])].

(** A validator that visits the [assumeRoleAdditionalOptions] of those
    properties and reports no error. *)
Definition visiting_role (role : value) : Manifest.Env :=
  manifest_env [(stack_properties role, "assumeRoleAdditionalOptions")] [] ∅.

Definition relaxed : option Manifest.LoadManifestOptions :=
  Some {| Manifest.skipVersionCheck := None;
          Manifest.skipEnumCheck := Some true;
          Manifest.topoSort := None |}.

Definition enum_schema : gmap string value :=
  list_to_map [("type", VStr "string");
               ("enum", VArr [VStr "aws:cloudformation:stack"; VStr "cdk:tree"])].

Definition type_error_at_enum : jsonschema.ValidationError :=
  {| jsonschema.name := "type";
     jsonschema.schema := inr enum_schema;
     jsonschema.stack := "instance.artifacts.Stack.type is not of a type(s) string" |}.

Definition enum_error_at_enum : jsonschema.ValidationError :=
  {| jsonschema.name := "enum";
     jsonschema.schema := inr enum_schema;
     jsonschema.stack :=
       "instance.artifacts.Stack.type is not one of enum values: "
         +:+ "aws:cloudformation:stack,cdk:tree" |}.

Definition enum_error_at_id : jsonschema.ValidationError :=
  {| jsonschema.name := "enum";
     jsonschema.schema := inl "#/definitions/ArtifactType";
     jsonschema.stack :=
       "instance.artifacts.Stack.type is not one of enum values: "
         +:+ "aws:cloudformation:stack,cdk:tree" |}.

Definition mem_tags : value :=
  VArr [obj [("key", VStr "team"); ("value", VStr "infra")]].

Definition disk_tags : value :=
  VArr [obj [("Key", VStr "team"); ("Value", VStr "infra")]].

Definition tags_entry (tags : value) : value :=
  obj [("type", VStr "aws:cdk:stack-tags"); ("data", tags)].

Definition stack_artifact (tags : value) : value :=
  obj [("type", VStr "aws:cloudformation:stack");
       ("metadata", obj [("/Stack", VArr [tags_entry tags])])].

Definition stack_with (tags : value) : value :=
  obj [("version", VStr "48.0.0");
       ("artifacts", obj [("Stack", stack_artifact tags)])].

(** The payload of the first metadata entry of the stack of [stack_with]. *)
Definition tags_of (manifest : value) : value :=
  let stack := prop_opt (prop_opt manifest "artifacts") "Stack" in
  match prop_opt (prop_opt stack "metadata") "/Stack" with
  | VArr (entry :: _) => prop_opt entry "data"
  | _ => VUndefined
  end.

(** A file system with one manifest file, and the parser that reads it. *)
Definition stored (manifest : value) : Manifest.Env :=
  manifest_env [] [] {[ "{...}" := manifest ]}.

Definition one_file : gmap string string := {[ "manifest.json" := "{...}" ]}.

End Fixtures.

(** ** Vocabulary of the statements about the handler *)

Module ContainerViews.
Import ContainerImages.

(** Calls on the build engine: obtaining a build handle, probing the local
    cache, building and tagging. *)
Definition build_engine_call (c : Call) : bool :=
  match c with
  | dockerFactory_forBuild _ _ _ | docker_exists _ _ | docker_build _ _
  | docker_tag _ _ _ => true
  | _ => false
  end.

(** Running an external build command. *)
Definition external_command (c : Call) : bool :=
  match c with
  | shell _ _ _ => true
  | _ => false
  end.

(** The build proper. *)
Definition is_docker_build (c : Call) : bool :=
  match c with
  | docker_build _ _ => true
  | _ => false
  end.

(** Calls that change the registry: obtaining a push handle and pushing. *)
Definition registry_mutation (c : Call) : bool :=
  match c with
  | dockerFactory_forEcrPush _ _ _ | docker_push _ _ => true
  | _ => false
  end.

(** The calls made while the init state is resolved: placeholder
    resolution, client creation, the two registry lookups, account
    discovery and progress messages. *)
Definition resolution_call (c : Call) : bool :=
  match c with
  | replaceAwsPlaceholders _ | aws_ecrClient _ _ | aws_discoverCurrentAccount
  | ecr_describeRepositories _ _ | ecr_describeImages _ _ _
  | host_emitMessage _ _ => true
  | _ => false
  end.

(** The progress events among some calls, in order. *)
Definition events (l : list Call) : list EventType :=
  omap (λ c, match c with host_emitMessage type _ => Some type | _ => None end) l.

(** The state after further calls. *)
Definition after (s : State) (new_calls : list Call) : State :=
  {| init := init s; calls := calls s ++ new_calls |}.

(** The deterministic local tag of an asset. *)
Definition localTag (asset : DockerImageManifestEntry) : string :=
  "cdkasset-" +:+ toLowerCase (assetId (id asset)).

Definition building_with_command (executable : list string) : Call :=
  host_emitMessage BUILD
    ("Building Docker image using command '" +:+ String.concat "," executable +:+ "'").

End ContainerViews.

Module ContainerFixtures.
Import ContainerImages.

Definition not_found : exception :=
  {| name := "ImageNotFoundException"; message := "The image does not exist" |}.

Definition access_denied : exception :=
  {| name := "AccessDeniedException"; message := "User is not authorized" |}.

(** A bootstrapped account: the repository exists; [image] is the answer
    of [describeImages], [cached] that of the local cache probe. *)
Definition account (image : exception + unit) (cached : bool) : Env :=
  {| host_aborted := λ _, false;
     on_replaceAwsPlaceholders := λ _ d, inr d;
     on_ecrClient := λ _ _ _, inr 1%N;
     on_discoverCurrentAccount :=
       λ _, inr (Some {| SDK.accountId := Some "123456789012" |});
     on_describeRepositories := λ _ _ _,
       inr {| SDK.repositories :=
                Some [ {| SDK.repositoryUri :=
                            Some "123456789012.dkr.ecr.eu-west-1.amazonaws.com/myrepo" |} ] |};
     on_describeImages := λ _ _ _ _, image;
     on_forBuild := λ _ _ _ _, inr 2%N;
     on_forEcrPush := λ _ _ _ _, inr 3%N;
     on_exists := λ _ _ _, inr cached;
     on_build := λ _ _ _, inr tt;
     on_tag := λ _ _ _ _, inr tt;
     on_push := λ _ _ _, inr tt;
     on_shell := λ _ _ _ _, inr (" built-elsewhere:1 " +:+ Manifest.LF);
     path_resolve := λ from to, from +:+ "/" +:+ to;
     JSON_stringify := λ _, "{}" |}.

Definition source_of (directory : option string) (executable : option (list string))
  : DockerImageSource :=
  {| directory := directory;
     executable := executable;
     dockerBuildArgs := None;
     dockerBuildSecrets := None;
     dockerBuildSsh := None;
     dockerBuildTarget := None;
     dockerFile := None;
     networkMode := None;
     platform := None;
     dockerOutputs := None;
     cacheFrom := None;
     cacheTo := None;
     cacheDisabled := None |}.

Definition asset_of (source : DockerImageSource) : DockerImageManifestEntry :=
  {| id := {| assetId := "ABC123"; destinationId := "current" |};
     source := source;
     destination := {| repositoryName := "myrepo"; imageTag := "latest" |} |}.

Definition asset_with_both : DockerImageManifestEntry :=
  asset_of (source_of (Some "img") (Some ["make"; "image"])).

Definition asset_with_neither : DockerImageManifestEntry :=
  asset_of (source_of None None).

Definition asset_with_directory : DockerImageManifestEntry :=
  asset_of (source_of (Some "img") None).

Definition handler_options : IHandlerOptions :=
  {| subprocessOutputDestination := "stdio" |}.

Definition fresh : State := {| init := None; calls := [] |}.

End ContainerFixtures.

(** ** Further vocabulary *)

Module MoreViews.
Import JS Manifest ManifestViews.

(** Payloads of the serialised form: sequences of [{Key, Value}] pairs. *)
Definition diskTags (tags : value) : Prop :=
  ∃ kvs, tags = VArr (diskTag <$> kvs).

(** A function that throws nothing but [TypeError]. *)
Definition throws_only_TypeError {A} (f : value → result A) : Prop :=
  ∀ v e, f v = inl e → e = TypeError.

(** The three loaders of the class. *)
Inductive loader := AssemblyLoader (options : option LoadManifestOptions)
                  | AssetLoader | IntegLoader.

Definition run_loader (E : Env) (l : loader) (filePath : string)
    (fs : gmap string string) : result value :=
  match l with
  | AssemblyLoader options => loadAssemblyManifest E filePath options fs
  | AssetLoader => loadAssetManifest E filePath fs
  | IntegLoader => loadIntegManifest E filePath fs
  end.

End MoreViews.

Module MoreFixtures.
Import JS.

Definition unversioned : value := Fixtures.obj [("version", VStr "latest")].

Definition tree_only : gmap string value :=
  list_to_map
    [("version", VStr "48.0.0");
     ("artifacts",
      Fixtures.obj [("Tree", Fixtures.obj [("type", VStr "cdk:tree")])])].

Definition null_artifact : gmap string value :=
  list_to_map [("version", VStr "48.0.0");
               ("artifacts", Fixtures.obj [("Stack", VNull)])].

(** The version-stamped form of [Fixtures.stack_with], as the fixture
    environment stamps it. *)
Definition stamped (tags : value) : value :=
  Fixtures.obj
    [("version", VStr "48.0.0"); ("minimumCliVersion", VStr "2.1100.0");
     ("artifacts", Fixtures.obj [("Stack", Fixtures.stack_artifact tags)])].

(** An environment whose parser knows the serialisation of one document. *)
Definition parsing (document : value) : Manifest.Env :=
  Fixtures.manifest_env [] [] {[ Fixtures.print document := document ]}.

Definition integ_document : value :=
  Fixtures.obj [("version", VStr "48.0.0"); ("synthContext", Fixtures.obj [])].

(** An integration-test manifest with one test case, and its stamped
    form. *)
Definition integ_tests : value :=
  Fixtures.obj [("testCases", Fixtures.obj [("smoke", Fixtures.obj [])])].

Definition integ_stamped : value :=
  Fixtures.obj
    [("version", VStr "48.0.0"); ("minimumCliVersion", VStr "2.1100.0");
     ("testCases", Fixtures.obj [("smoke", Fixtures.obj [])])].

End MoreFixtures.

Module ContainerLogic.
Import ContainerImages.

(** [effect Q m]: whatever [m] answers, it only appends calls that satisfy
    [Q] to the calls made before, and it keeps an init state that was
    already there. *)
Definition effect {A} (Q : Call → Prop) (m : M A) : Prop :=
  ∀ s r s', m s = (r, s') →
    (∃ new_calls, calls s' = (calls s ++ new_calls)%list ∧ Forall Q new_calls)
    ∧ (∀ i, init s = Some i → init s' = Some i).

End ContainerLogic.

(** ** Further vocabulary of the statements about the handler *)

Module HandlerViews.
Import ContainerImages ContainerViews.

(** The options [buildImage] passes to the engine. *)
Definition requested_build (E : Env) (workDir : string)
    (asset : DockerImageManifestEntry) : BuildOptions :=
  let source := source asset in
  {| build_directory := path_resolve E workDir (default "" (directory source));
     build_tag := localTag asset;
     buildArgs := dockerBuildArgs source;
     buildSecrets := dockerBuildSecrets source;
     buildSsh := dockerBuildSsh source;
     build_target := dockerBuildTarget source;
     build_file := dockerFile source;
     build_networkMode := networkMode source;
     build_platform := platform source;
     build_outputs := dockerOutputs source;
     build_cacheFrom := cacheFrom source;
     build_cacheTo := cacheTo source;
     build_cacheDisabled := cacheDisabled source |}.

Definition building_at (E : Env) (workDir : string)
    (asset : DockerImageManifestEntry) : Call :=
  host_emitMessage BUILD
    ("Building Docker image at "
     +:+ path_resolve E workDir (default "" (directory (source asset)))).

Definition no_repository (repositoryName : string) (account : option SDK.Account)
  : exception :=
  Error ("No ECR repository named '" +:+ repositoryName +:+ "' in account "
         +:+ default "undefined" (account ≫= SDK.accountId)
         +:+ ". Is this account bootstrapped?").

(** The lookups of the resolution: everything it calls but the progress
    messages. *)
Definition registry_lookup (c : Call) : bool :=
  match c with
  | replaceAwsPlaceholders _ | aws_ecrClient _ _ | aws_discoverCurrentAccount
  | ecr_describeRepositories _ _ | ecr_describeImages _ _ _ => true
  | _ => false
  end.

End HandlerViews.

Module HandlerFixtures.
Import ContainerImages ContainerFixtures.

(** [E] with cancellation requested as soon as [n] calls have been made. *)
Definition cancelled_after (n : nat) (E : Env) : Env :=
  {| host_aborted := λ h, (n <=? length h)%nat;
     on_replaceAwsPlaceholders := on_replaceAwsPlaceholders E;
     on_ecrClient := on_ecrClient E;
     on_discoverCurrentAccount := on_discoverCurrentAccount E;
     on_describeRepositories := on_describeRepositories E;
     on_describeImages := on_describeImages E;
     on_forBuild := on_forBuild E;
     on_forEcrPush := on_forEcrPush E;
     on_exists := on_exists E;
     on_build := on_build E;
     on_tag := on_tag E;
     on_push := on_push E;
     on_shell := on_shell E;
     path_resolve := path_resolve E;
     JSON_stringify := JSON_stringify E |}.

Definition repository_not_found : exception :=
  {| name := "RepositoryNotFoundException";
     message := "The repository does not exist" |}.

(** A bootstrapped account whose registry does not hold the image, with
    an empty local cache. *)
Definition bootstrapped : Env := account (inl not_found) false.

(** An account that was not bootstrapped: the repository lookup fails. *)
Definition unbootstrapped : Env :=
  let E := bootstrapped in
  {| host_aborted := host_aborted E;
     on_replaceAwsPlaceholders := on_replaceAwsPlaceholders E;
     on_ecrClient := on_ecrClient E;
     on_discoverCurrentAccount := on_discoverCurrentAccount E;
     on_describeRepositories := λ _ _ _, inl repository_not_found;
     on_describeImages := on_describeImages E;
     on_forBuild := on_forBuild E;
     on_forEcrPush := on_forEcrPush E;
     on_exists := on_exists E;
     on_build := on_build E;
     on_tag := on_tag E;
     on_push := on_push E;
     on_shell := on_shell E;
     path_resolve := path_resolve E;
     JSON_stringify := JSON_stringify E |}.

Definition registry_uri : string :=
  "123456789012.dkr.ecr.eu-west-1.amazonaws.com/myrepo".

(** The init state the fixture account resolves to. *)
Definition resolved_init (exists_ : bool) : ContainerImageAssetHandlerInit :=
  {| ecr := 1%N; repoUri := registry_uri;
     imageUri := registry_uri +:+ ":latest";
     destinationAlreadyExists := exists_ |}.

(** A handler whose init state was resolved before, with no call on
    record. *)
Definition resolved (exists_ : bool) : State :=
  {| init := Some (resolved_init exists_); calls := [] |}.

End HandlerFixtures.

(** * Properties of the manifest protocol *)

Module ManifestFacts.
Import JS Manifest ManifestViews.

(** ** Strings and the exception monad *)

Lemma prefix_append (s t : string) : String.prefix s (s +:+ t) = true.
Proof.
  induction s as [|c s IH]; simpl.
  - by destruct t.
  - rewrite IH. by destruct (Ascii.ascii_dec c c).
Qed.

Lemma eqb_string_false (s t : string) : String.eqb s t = false ↔ s ≠ t.
Proof. apply String.eqb_neq. Qed.

Lemma fmap_inr {A B} (f : A → B) (a : A) : f <$> (inr a : result A) = inr (f a).
Proof. reflexivity. Qed.

Lemma bind_inr {A B} (k : A → result B) (a : A) : (inr a : result A) ≫= k = k a.
Proof. reflexivity. Qed.

Lemma mapM_result_ok {A B} (f : A → result B) (g : A → B) (l : list A) :
  (∀ x, x ∈ l → f x = inr (g x)) → mapM f l = inr (g <$> l).
Proof.
  induction l as [|x l IH]; intros Hf; [done|].
  cbn. rewrite (Hf x) by left. cbn.
  rewrite IH; [done|]. intros y Hy. apply Hf. by right.
Qed.

Lemma mapM_result_fmap {A B C} (f : B → result C) (h : A → B) (l : list A) :
  mapM f (h <$> l) = mapM (f ∘ h) l.
Proof. induction l as [|x l IH]; [done|]. cbn. by rewrite IH. Qed.

(** Either [f] succeeds on every element or [mapM] returns what [f] threw
    on some element. *)
Lemma mapM_result_cases {A B} (f : A → result B) (l : list A) :
  (∃ bs, mapM f l = inr bs ∧ Forall2 (λ x b, f x = inr b) l bs)
  ∨ (∃ x e, x ∈ l ∧ f x = inl e ∧ mapM f l = inl e).
Proof.
  induction l as [|x l IH]; cbn.
  - left. exists []. by split.
  - destruct (f x) as [e|b] eqn:Hx; cbn.
    + right. exists x, e. split; [by left|done].
    + destruct IH as [(bs & -> & Hbs)|(y & e & Hy & Hfy & ->)]; cbn.
      * left. exists (b :: bs). split; [done|]. by constructor.
      * right. exists y, e. split; [by right|done].
Qed.

(** ** The hook on [assumeRoleAdditionalOptions] *)

Lemma hook_other_key (instance : value) (key : string) :
  key ≠ "assumeRoleAdditionalOptions" →
  validateAssumeRoleAdditionalOptions instance key = inr tt.
Proof.
  intros Hkey. unfold validateAssumeRoleAdditionalOptions.
  apply eqb_string_false in Hkey. by rewrite Hkey.
Qed.

Lemma hook_on_object (fields : gmap string value) :
  let options := default VUndefined (fields !! "assumeRoleAdditionalOptions") in
  validateAssumeRoleAdditionalOptions (VObj fields) "assumeRoleAdditionalOptions" =
    if truthy (prop_opt options "RoleArn") then
      inl (Error (forbidden_field_message "RoleArn"))
    else if truthy (prop_opt options "ExternalId") then
      inl (Error (forbidden_field_message "ExternalId"))
    else inr tt.
Proof. reflexivity. Qed.

(** On objects the hook throws nothing but the two forbidden-field errors. *)
Lemma hook_throws_forbidden (fields : gmap string value) (key : string) e :
  validateAssumeRoleAdditionalOptions (VObj fields) key = inl e →
  key = "assumeRoleAdditionalOptions"
  ∧ (e = Error (forbidden_field_message "RoleArn")
     ∨ e = Error (forbidden_field_message "ExternalId")).
Proof.
  destruct (decide (key = "assumeRoleAdditionalOptions")) as [->|Hne].
  - rewrite hook_on_object. cbn zeta.
    repeat case_match; intros [= <-]; auto.
  - by rewrite hook_other_key.
Qed.

(** ** The two stages of [validate] *)

Section Validate.
Context (E : Env).

(** [validate] once both versions have parsed. *)
Lemma validate_parsed manifest schema options supported candidate actual :
  semver_valid E (VStr (version E)) = Some supported →
  prop manifest "version" = inr candidate →
  semver_valid E candidate = Some actual →
  validate E manifest schema options =
    if (semver_major E supported <? semver_major E actual)%N
       && negb (flag options skipVersionCheck)
    then inl (Error (mismatch_message (semver_major E supported) actual
                       (prop_opt manifest "minimumCliVersion")))
    else structural E manifest schema options.
Proof.
  intros Hsup Hcand Hact. unfold validate, parseVersion.
  rewrite Hsup. cbn. rewrite Hcand. cbn. rewrite Hact. cbn.
  destruct (_ && _); reflexivity.
Qed.

Lemma structural_accepts manifest schema options errors :
  Validator_validate E manifest schema validateAssumeRoleAdditionalOptions = inr errors →
  retained options errors = [] →
  structural E manifest schema options = inr tt.
Proof. intros Hv Hr. unfold structural. rewrite Hv. cbn. by rewrite Hr. Qed.

Lemma structural_rejects manifest schema options errors :
  Validator_validate E manifest schema validateAssumeRoleAdditionalOptions = inr errors →
  retained options errors ≠ [] →
  structural E manifest schema options =
    inl (Error ("Invalid assembly manifest:" +:+ LF
                +:+ String.concat LF (map jsonschema.stack (retained options errors)))).
Proof.
  intros Hv Hr. unfold structural. rewrite Hv. cbn.
  destruct (retained options errors); [done|reflexivity].
Qed.


End Validate.


(** ** Structural validation *)

Section Structural.
Context (E : Env).

Lemma validate_passes_gate manifest schema options :
  passes_gate E manifest options →
  validate E manifest schema options = structural E manifest schema options.
Proof.
  intros (supported & candidate & actual & Hsup & Hcand & Hact & Hgate).
  rewrite (validate_parsed E _ _ _ _ _ _ Hsup Hcand Hact).
  destruct Hgate as [Hle|Hskip].
  - apply N.ltb_ge in Hle. by rewrite Hle.
  - rewrite Hskip. by rewrite andb_false_r.
Qed.

(** What the hook throws on a visited property surfaces from the
    validator, and nothing else does. *)
Lemma Validator_validate_hook_cases instance schema :
  Validator_validate E instance schema validateAssumeRoleAdditionalOptions
    = inr (jsonschema_errors E instance schema)
    ∧ (∀ ik, ik ∈ jsonschema_visited E instance schema →
         validateAssumeRoleAdditionalOptions (VObj ik.1) ik.2 = inr tt)
  ∨ ∃ member,
      (member = "RoleArn" ∨ member = "ExternalId")
      ∧ Validator_validate E instance schema validateAssumeRoleAdditionalOptions
        = inl (Error (forbidden_field_message member)).
Proof.
  unfold Validator_validate.
  destruct (mapM_result_cases
              (λ ik, validateAssumeRoleAdditionalOptions (VObj ik.1) ik.2)
              (jsonschema_visited E instance schema))
    as [(bs & -> & Hall)|(ik & e & Hin & Hik & ->)].
  - left. split; [done|]. intros ik Hin.
    apply list_elem_of_lookup in Hin as [i Hi].
    destruct (Forall2_lookup_l _ _ _ _ _ Hall Hi) as (u & _ & Hb). by destruct u.
  - right. apply hook_throws_forbidden in Hik as [_ [->| ->]];
      [exists "RoleArn"|exists "ExternalId"]; auto.
Qed.

(** C5 (amended).  The hook looks at the property name only: under any
    name other than [assumeRoleAdditionalOptions] it accepts every object,
    and under that name it throws the dedicated error as soon as the
    property's value has a truthy [RoleArn] or [ExternalId] member.  A
    candidate that passes the version gate and in which the validator
    visits such a property fails validation with that dedicated error. *)
Theorem assume_role_options_check :
  (∀ instance key,
     key ≠ "assumeRoleAdditionalOptions" →
     validateAssumeRoleAdditionalOptions instance key = inr tt)
  ∧ (∀ fields assumeRoleOptions,
       fields !! "assumeRoleAdditionalOptions" = Some assumeRoleOptions →
       truthy (prop_opt assumeRoleOptions "RoleArn")
         || truthy (prop_opt assumeRoleOptions "ExternalId") = true →
       ∃ member,
         (member = "RoleArn" ∨ member = "ExternalId")
         ∧ validateAssumeRoleAdditionalOptions (VObj fields)
             "assumeRoleAdditionalOptions"
           = inl (Error (forbidden_field_message member)))
  ∧ (∀ manifest schema options fields assumeRoleOptions,
       passes_gate E manifest options →
       (fields, "assumeRoleAdditionalOptions") ∈ jsonschema_visited E manifest schema →
       fields !! "assumeRoleAdditionalOptions" = Some assumeRoleOptions →
       truthy (prop_opt assumeRoleOptions "RoleArn")
         || truthy (prop_opt assumeRoleOptions "ExternalId") = true →
       ∃ member,
         (member = "RoleArn" ∨ member = "ExternalId")
         ∧ validate E manifest schema options
           = inl (Error (forbidden_field_message member))).
Proof.
  assert (Hhook : ∀ fields assumeRoleOptions,
    fields !! "assumeRoleAdditionalOptions" = Some assumeRoleOptions →
    truthy (prop_opt assumeRoleOptions "RoleArn")
      || truthy (prop_opt assumeRoleOptions "ExternalId") = true →
    ∃ member,
      (member = "RoleArn" ∨ member = "ExternalId")
      ∧ validateAssumeRoleAdditionalOptions (VObj fields)
          "assumeRoleAdditionalOptions"
        = inl (Error (forbidden_field_message member))).
  { intros fields o Ho Htruthy. rewrite hook_on_object. cbn zeta. rewrite Ho. cbn.
    apply orb_true_iff in Htruthy.
    destruct (truthy (prop_opt o "RoleArn")) eqn:Hrole.
    - exists "RoleArn". auto.
    - destruct Htruthy as [Hr|He]; [done|]. rewrite He. exists "ExternalId". auto. }
  split; [exact hook_other_key|]. split; [exact Hhook|].
  intros manifest schema options fields o Hgate Hvisited Ho Htruthy.
  rewrite validate_passes_gate by done. unfold structural.
  destruct (Validator_validate_hook_cases manifest schema)
    as [[_ Hall]|(member & Hmember & ->)].
  - specialize (Hall _ Hvisited). change (validateAssumeRoleAdditionalOptions
      (VObj fields) "assumeRoleAdditionalOptions" = inr ()) in Hall.
    destruct (Hhook _ _ Ho Htruthy) as (member & _ & Hthrown).
    rewrite Hthrown in Hall. discriminate.
  - exists member. by split.
Qed.

(** [stripEnumErrors] keeps exactly the errors not reported against an
    enum-carrying schema object. *)
Lemma elem_of_stripEnumErrors errors e :
  e ∈ stripEnumErrors errors ↔ e ∈ errors ∧ ¬ at_enum_schema e.
Proof.
  unfold stripEnumErrors. rewrite !list_elem_of_In, filter_In, <-!list_elem_of_In.
  apply and_iff_compat_l. unfold at_enum_schema.
  destruct (jsonschema.schema e) as [id|s].
  - split; [|done]. intros _ (s & [=] & _).
  - rewrite negb_true_iff, bool_decide_eq_false. split.
    + intros Hno (s' & [= <-] & Hs). done.
    + intros Hno Hs. apply Hno. eauto.
Qed.

Lemma stripEnumErrors_all_at_enum errors :
  Forall at_enum_schema errors → stripEnumErrors errors = [].
Proof.
  intros Hall. destruct (stripEnumErrors errors) as [|e l] eqn:Hstrip; [done|].
  assert (He : e ∈ stripEnumErrors errors) by (rewrite Hstrip; left).
  apply elem_of_stripEnumErrors in He as [He Hno].
  rewrite Forall_forall in Hall. destruct Hno. by apply Hall.
Qed.


End Structural.

(** A visited [assumeRoleAdditionalOptions] carrying a role ARN is refused. *)
Lemma assume_role_options_check_witness :
  ∃ member,
    validate (Fixtures.visiting_role Fixtures.some_role)
      (Fixtures.manifest_with_role "36.0.0" Fixtures.some_role) (VObj ∅) None
    = inl (Error (forbidden_field_message member)).
Proof.
  destruct (proj2 (proj2 (assume_role_options_check
                            (Fixtures.visiting_role Fixtures.some_role)))
              (Fixtures.manifest_with_role "36.0.0" Fixtures.some_role) (VObj ∅) None
              (Fixtures.stack_properties Fixtures.some_role) Fixtures.some_role)
    as (member & _ & Hthrown).
  - exists "48.0.0", (VStr "36.0.0"), "36.0.0".
    repeat split; try (vm_compute; reflexivity). left. vm_compute. discriminate.
  - left.
  - vm_compute. reflexivity.
  - vm_compute. reflexivity.
  - by exists member.
Defined.

(** C5 as stated fails on two counts.  A candidate of a newer major version
    with a role ARN in a visited [assumeRoleAdditionalOptions] fails with
    the version-mismatch error, not with the forbidden-field one.  And an
    [assumeRoleAdditionalOptions] whose [RoleArn] member is the empty string
    is accepted, by the hook and by validation. *)
Lemma assume_role_options_counterexample :
  validate (Fixtures.visiting_role Fixtures.some_role)
    (Fixtures.manifest_with_role "49.1.0" Fixtures.some_role) (VObj ∅) None
  = inl (Error ("Cloud assembly schema version mismatch: "
                +:+ "Maximum schema version supported is 48.x.x, but found 49.1.0"))
  ∧ Fixtures.empty_role = VObj {[ "RoleArn" := VStr "" ]}
  ∧ validateAssumeRoleAdditionalOptions
      (VObj (Fixtures.stack_properties Fixtures.empty_role))
      "assumeRoleAdditionalOptions" = inr tt
  ∧ validate (Fixtures.visiting_role Fixtures.empty_role)
      (Fixtures.manifest_with_role "36.0.0" Fixtures.empty_role) (VObj ∅) None
    = inr tt.
Proof. repeat split; vm_compute; reflexivity. Qed.



(** ** Saving and loading *)

Section SaveLoad.
Context (E : Env).

Lemma saveManifest_eq manifest filePath schema preprocess fs :
  saveManifest E manifest filePath schema preprocess fs =
    match validate E (withVersion E manifest) schema None with
    | inl e => inl e
    | inr _ =>
        match preprocess with
        | None => inr (<[filePath := JSON_stringify E (withVersion E manifest) 2]> fs)
        | Some patch =>
            match patch (withVersion E manifest) with
            | inl e => inl e
            | inr patched => inr (<[filePath := JSON_stringify E patched 2]> fs)
            end
        end
    end.
Proof.
  unfold saveManifest, withVersion.
  destruct (validate E _ schema None); [done|].
  destruct preprocess as [patch|]; [|done].
  rewrite bind_inr. by destruct (patch _).
Qed.

Lemma withVersion_discards fields supplied_version supplied_cli :
  withVersion E (VObj (<["version" := supplied_version]>
                         (<["minimumCliVersion" := supplied_cli]> fields)))
  = withVersion E (VObj fields).
Proof.
  unfold withVersion. f_equal. cbn. apply map_eq. intros k.
  destruct (decide (k = "minimumCliVersion")) as [->|Hc].
  { by rewrite !lookup_insert_eq. }
  rewrite !(lookup_insert_ne _ "minimumCliVersion") by done.
  destruct (decide (k = "version")) as [->|Hv].
  { by rewrite !lookup_insert_eq. }
  by rewrite !lookup_insert_ne.
Qed.

(** C8.  [saveManifest] builds the shallow copy of its input in which
    [version] and [minimumCliVersion] hold the tool's own values, whatever
    the caller supplied for them, and validates that object.  When
    validation throws, so does [saveManifest].  When it succeeds, the file
    receives the serialisation of what the pre-write patch returns for the
    validated object (of that object itself without a patch): the patch's
    result goes to the file without being validated. *)
Theorem saveManifest_stamps_validates_patches
    manifest filePath schema preprocess fs :
  (prop (withVersion E manifest) "version" = inr (VStr (version E))
   ∧ prop (withVersion E manifest) "minimumCliVersion" = inr (cliVersion E)
   ∧ (∀ k, k ≠ "version" → k ≠ "minimumCliVersion" →
        own_props (withVersion E manifest) !! k = own_props manifest !! k)
   ∧ (∀ fields supplied_version supplied_cli,
        withVersion E (VObj (<["version" := supplied_version]>
                               (<["minimumCliVersion" := supplied_cli]> fields)))
        = withVersion E (VObj fields)))
  ∧ (∀ e, validate E (withVersion E manifest) schema None = inl e →
          saveManifest E manifest filePath schema preprocess fs = inl e)
  ∧ (validate E (withVersion E manifest) schema None = inr tt →
     saveManifest E manifest filePath schema preprocess fs =
       match preprocess with
       | None => inr (<[filePath := JSON_stringify E (withVersion E manifest) 2]> fs)
       | Some patch =>
           match patch (withVersion E manifest) with
           | inl e => inl e
           | inr patched => inr (<[filePath := JSON_stringify E patched 2]> fs)
           end
       end).
Proof.
  split; [|split].
  - split; [|split; [|split]].
    + unfold withVersion. cbn. by rewrite lookup_insert_ne, lookup_insert_eq.
    + unfold withVersion. cbn. by rewrite lookup_insert_eq.
    + intros k Hv Hc. unfold withVersion. cbn. by rewrite !lookup_insert_ne.
    + apply withVersion_discards.
  - intros e He. by rewrite saveManifest_eq, He.
  - intros Hok. by rewrite saveManifest_eq, Hok.
Qed.

Lemma loadManifest_unpatched_ok filePath schema options fs obj :
  loadManifest E filePath schema None options fs = inr obj ↔
  ∃ contents,
    fs !! filePath = Some contents
    ∧ JSON_parse E contents = inr obj
    ∧ validate E obj schema options = inr tt.
Proof.
  unfold loadManifest. split.
  - destruct (fs !! filePath) as [contents|]; [|done]. cbn.
    destruct (JSON_parse E contents) as [m|parsed] eqn:Hparse; [done|]. cbn.
    destruct (validate E parsed schema options) as [e|[]] eqn:Hv; [done|]. cbn.
    intros [= <-]. by exists contents.
  - intros (contents & -> & Hparse & Hv). cbn. rewrite Hparse. cbn.
    by rewrite Hv.
Qed.

(** On a manifest without [artifacts], as asset manifests are, either patch
    only drops the members whose value is [undefined]. *)
Lemma replaceStackTags_without_artifacts fields fn :
  fields !! "artifacts" = None →
  replaceStackTags E (VObj fields) fn = inr (VObj (noUndefined fields)).
Proof.
  intros Hnone. unfold replaceStackTags. cbn [prop own_props].
  rewrite bind_inr, Hnone. cbn [default from_option].
  unfold mapValues at 1. cbn [truthy]. rewrite bind_inr.
  unfold ok. do 2 f_equal. unfold noUndefined.
  apply map_filter_insert_not'; [cbn; discriminate|]. intros y Hy. congruence.
Qed.


End SaveLoad.

Lemma mem_tags_not_disk_tags : Fixtures.mem_tags ≠ Fixtures.disk_tags.
Proof.
  intros H.
  apply (f_equal (λ v, match v with
                       | VArr (tag :: _) => prop_opt tag "key"
                       | _ => VUndefined
                       end)) in H.
  vm_compute in H. discriminate.
Qed.

Lemma saveManifest_witness :
  saveManifest (Fixtures.manifest_env [] [] ∅) Fixtures.old_manifest "manifest.json"
    (VObj ∅) (Some (λ _, inr VNull)) ∅
  = inr {[ "manifest.json" := "null" ]}.
Proof.
  rewrite (proj2 (proj2 (saveManifest_stamps_validates_patches
                           (Fixtures.manifest_env [] [] ∅) Fixtures.old_manifest
                           "manifest.json" (VObj ∅) (Some (λ _, inr VNull)) ∅))).
  - reflexivity.
  - vm_compute. reflexivity.
Defined.



(** ** Lifting a payload transform through [replaceStackTags] *)

Lemma map_members_ok (f : value → result value) (h : value → value)
    (m : gmap string value) :
  (∀ k v, m !! k = Some v → f v = inr (h v)) →
  map_members f m = inr (h <$> m).
Proof.
  intros Hf. unfold map_members.
  rewrite (mapM_result_ok _ (prod_map id h)), fmap_inr.
  - by rewrite list_to_map_fmap, list_to_map_to_list.
  - intros [k v] Hkv%elem_of_map_to_list. cbn. by rewrite (Hf k v Hkv).
Qed.

Lemma map_members_undoes (Q : value → Prop) (F G : value → result value)
    (m : gmap string value) :
  undoes Q F G →
  (∀ k v, m !! k = Some v → Q v) →
  ∃ m', map_members F m = inr m' ∧ map_members G m' = inr m.
Proof.
  intros Hundo Hm.
  set (h := λ v, match F v with inr v' => v' | inl _ => v end).
  set (h' := λ v', match G v' with inr v => v | inl _ => v' end).
  assert (HF : ∀ k v, m !! k = Some v → F v = inr (h v) ∧ G (h v) = inr v).
  { intros k v Hv. destruct (Hundo v (Hm k v Hv)) as (v' & HFv & HGv).
    unfold h. by rewrite HFv. }
  exists (h <$> m). split.
  - apply map_members_ok. intros k v Hv. by apply (HF k v).
  - rewrite (map_members_ok G h').
    + f_equal. apply map_eq. intros k. rewrite !lookup_fmap.
      destruct (m !! k) as [v|] eqn:Hv; [|done]. cbn.
      destruct (HF k v Hv) as [_ HG]. unfold h' at 1. by rewrite HG.
    + intros k v'. rewrite lookup_fmap.
      destruct (m !! k) as [v|] eqn:Hv; [|done]. cbn. intros [= <-].
      destruct (HF k v Hv) as [_ HG]. unfold h' at 1. by rewrite HG.
Qed.

Lemma mapM_undoes (Q : value → Prop) (F G : value → result value)
    (l : list value) :
  undoes Q F G → Forall Q l →
  ∃ l', mapM F l = inr l' ∧ mapM G l' = inr l.
Proof.
  intros Hundo. induction 1 as [|x l Hx _ (l' & HFl & HGl)].
  - by exists [].
  - destruct (Hundo x Hx) as (x' & HFx & HGx). exists (x' :: l'). cbn.
    rewrite HFx. cbn. rewrite HFl. cbn. rewrite HGx. cbn. by rewrite HGl.
Qed.

Lemma array_map_undoes (Q : value → Prop) (F G : value → result value) :
  undoes Q F G →
  undoes (λ v, ∃ l, v = VArr l ∧ Forall Q l) (array_map F) (array_map G).
Proof.
  intros Hundo v (l & -> & Hl).
  destruct (mapM_undoes Q F G l Hundo Hl) as (l' & HF & HG).
  exists (VArr l'). unfold array_map. by rewrite HF, HG.
Qed.

Lemma differs_from_false v s : differs_from v s = false ↔ v = VStr s.
Proof.
  destruct v; cbn; try by split.
  rewrite negb_false_iff, String.eqb_eq. split; [by intros ->|by intros [= ->]].
Qed.

Lemma noUndefined_id fields : no_undefined fields → noUndefined fields = fields.
Proof.
  intros Hfields. unfold noUndefined. apply map_filter_id.
  intros k v Hv. by apply (Hfields k v).
Qed.

Lemma no_undefined_insert fields k v :
  no_undefined fields → is_undefined v = false → no_undefined (<[k := v]> fields).
Proof.
  intros Hfields Hv k' v'. rewrite lookup_insert.
  case_decide; [by intros [= <-]|]. apply Hfields.
Qed.

Lemma noUndefined_insert_undefined fields k :
  no_undefined fields → fields !! k = None →
  noUndefined (<[k := VUndefined]> fields) = fields.
Proof.
  intros Hfields Hk. unfold noUndefined.
  rewrite map_filter_insert_not'.
  - by apply noUndefined_id.
  - cbn. discriminate.
  - intros y Hy. congruence.
Qed.

Section Lifting.
Context (E : Env) (P : value → Prop) (fn gn : value → result value).
Context (Hpayload : ∀ d, P d → truthy d = true →
           ∃ d', fn d = inr d' ∧ truthy d' = true ∧ gn d' = inr d).

Lemma entry_step_undoes :
  undoes (wf_entry E P) (entry_step E fn) (entry_step E gn).
Proof.
  intros entry (fields & -> & Htags). unfold entry_step. cbn [prop prop_opt own_props].
  rewrite !bind_inr.
  destruct (differs_from (default VUndefined (fields !! "type")) (STACK_TAGS E))
    eqn:Htype.
  { exists (VObj fields). cbn [orb prop]. by rewrite bind_inr, Htype. }
  cbn [orb].
  destruct (truthy (default VUndefined (fields !! "data"))) eqn:Hdata.
  2:{ exists (VObj fields). cbn [negb prop prop_opt].
      by rewrite bind_inr, Htype, Hdata. }
  cbn [negb].
  apply differs_from_false in Htype.
  destruct (fields !! "type") as [t|] eqn:Ht; [|done]. cbn in Htype. subst t.
  destruct (fields !! "data") as [d|] eqn:Hd; [|done]. cbn in Hdata |- *.
  destruct (Hpayload d (Htags eq_refl d eq_refl Hdata) Hdata)
    as (d' & Hfn & Htruthy & Hgn).
  exists (VObj (<["data" := d']> fields)). rewrite Hfn, bind_inr. split; [done|].
  cbn [prop prop_opt own_props]. rewrite bind_inr.
  rewrite lookup_insert_ne by done. rewrite Ht. cbn [default from_option id].
  rewrite (proj2 (differs_from_false _ _) eq_refl).
  rewrite lookup_insert_eq. cbn [default from_option id orb]. rewrite Htruthy. cbn [negb].
  rewrite Hgn, bind_inr. unfold ok. do 2 f_equal.
  rewrite insert_insert_eq. by apply insert_id.
Qed.

Lemma metadata_undoes (paths : gmap string value) :
  wf_metadata E P paths →
  ∃ paths',
    mapValues (VObj paths) (array_map (entry_step E fn)) = inr (VObj paths')
    ∧ mapValues (VObj paths') (array_map (entry_step E gn)) = inr (VObj paths).
Proof.
  intros Hpaths.
  destruct (map_members_undoes _ _ _ paths (array_map_undoes _ _ _ entry_step_undoes))
    as (paths' & HF & HG); [exact Hpaths|].
  exists paths'. unfold mapValues. cbn [truthy own_props]. by rewrite HF, HG.
Qed.

Lemma artifact_step_undoes :
  undoes (wf_artifact E P) (artifact_step E fn) (artifact_step E gn).
Proof.
  intros artifact (fields & -> & Hstack). unfold artifact_step.
  cbn [prop own_props]. rewrite !bind_inr.
  destruct (differs_from (default VUndefined (fields !! "type"))
              (AWS_CLOUDFORMATION_STACK E)) eqn:Htype.
  { exists (VObj fields). cbn [prop]. by rewrite bind_inr, Htype. }
  apply differs_from_false in Htype.
  destruct (fields !! "type") as [t|] eqn:Ht; [|done]. cbn in Htype. subst t.
  destruct (Hstack eq_refl) as [Hdefined [Hnone|(paths & Hsome & Hpaths)]].
  - exists (VObj fields). rewrite Hnone. cbn [default from_option id].
    unfold mapValues at 1. cbn [truthy]. rewrite bind_inr.
    rewrite noUndefined_insert_undefined by done. split; [done|].
    cbn [prop own_props]. rewrite bind_inr, Ht. cbn [default from_option id].
    rewrite (proj2 (differs_from_false _ _) eq_refl), bind_inr, Hnone.
    cbn [default from_option id]. unfold mapValues. cbn [truthy]. rewrite bind_inr.
    by rewrite noUndefined_insert_undefined.
  - destruct (metadata_undoes paths Hpaths) as (paths' & HF & HG).
    exists (VObj (<["metadata" := VObj paths']> fields)).
    rewrite Hsome. cbn [default from_option id]. rewrite HF, bind_inr.
    rewrite noUndefined_id by by apply no_undefined_insert.
    split; [done|].
    cbn [prop own_props]. rewrite bind_inr, lookup_insert_ne by done.
    rewrite Ht. cbn [default from_option id].
    rewrite (proj2 (differs_from_false _ _) eq_refl), bind_inr, lookup_insert_eq.
    cbn [default from_option id]. rewrite HG, bind_inr. unfold ok. do 2 f_equal.
    rewrite insert_insert_eq, insert_id by done. by apply noUndefined_id.
Qed.

Lemma replaceStackTags_undoes manifest :
  wf_manifest E P manifest →
  ∃ written,
    replaceStackTags E manifest fn = inr written
    ∧ replaceStackTags E written gn = inr manifest.
Proof.
  intros (fields & -> & Hdefined & [Hnone|(artifacts & Hsome & Hartifacts)]).
  - exists (VObj fields).
    change (replaceStackTags E ?m ?f) with
      (manifest_artifacts ← prop m "artifacts";
       artifacts ← mapValues manifest_artifacts (artifact_step E f);
       ok (VObj (noUndefined (<["artifacts" := artifacts]> (own_props m))))).
    cbn [prop own_props]. rewrite !bind_inr, Hnone. cbn [default from_option id].
    unfold mapValues. cbn [truthy]. rewrite !bind_inr.
    by rewrite noUndefined_insert_undefined.
  - destruct (map_members_undoes _ _ _ artifacts artifact_step_undoes Hartifacts)
      as (artifacts' & HF & HG).
    exists (VObj (<["artifacts" := VObj artifacts']> fields)).
    change (replaceStackTags E ?m ?f) with
      (manifest_artifacts ← prop m "artifacts";
       artifacts ← mapValues manifest_artifacts (artifact_step E f);
       ok (VObj (noUndefined (<["artifacts" := artifacts]> (own_props m))))).
    cbn [prop own_props]. rewrite !bind_inr, Hsome. cbn [default from_option id].
    unfold mapValues at 1. cbn [truthy own_props]. rewrite HF, fmap_inr, bind_inr.
    rewrite noUndefined_id by by apply no_undefined_insert.
    split; [done|].
    rewrite lookup_insert_eq. cbn [default from_option id].
    unfold mapValues. cbn [truthy own_props]. rewrite HG, fmap_inr, bind_inr.
    unfold ok. do 2 f_equal.
    rewrite insert_insert_eq, insert_id by done. by apply noUndefined_id.
Qed.

End Lifting.

(** ** The stack-tag patches *)

Lemma writeTag_capitalised fields :
  is_Some (fields !! "Key") → writeTag (VObj fields) = inr (VObj fields).
Proof.
  intros HKey. unfold writeTag. cbn. by rewrite bool_decide_eq_true_2.
Qed.

Lemma writeTag_twice tag written :
  writeTag tag = inr written → writeTag written = inr written.
Proof.
  destruct tag; try done; unfold writeTag; cbn.
  - intros [= <-]. reflexivity.
  - case_bool_decide as HKey.
    + intros [= <-]. by apply writeTag_capitalised.
    + intros [= <-]. reflexivity.
Qed.

Lemma mapM_twice (f : value → result value) (l l' : list value) :
  (∀ x y, f x = inr y → f y = inr y) →
  mapM f l = inr l' → mapM f l' = inr l'.
Proof.
  intros Hf. revert l'. induction l as [|x l IH]; intros l'; cbn.
  - by intros [= <-].
  - destruct (f x) as [e|y] eqn:Hx; [done|]. cbn.
    destruct (mapM f l) as [e|ys]; [done|]. cbn. intros [= <-].
    cbn. rewrite (Hf _ _ Hx). cbn. by rewrite (IH ys).
Qed.

Lemma array_map_write_read (kvs : list (value * value)) :
  array_map writeTag (VArr (memTag <$> kvs)) = inr (VArr (diskTag <$> kvs))
  ∧ array_map readTag (VArr (diskTag <$> kvs)) = inr (VArr (memTag <$> kvs)).
Proof.
  unfold array_map. split.
  - by rewrite mapM_result_fmap, (mapM_result_ok _ diskTag).
  - by rewrite mapM_result_fmap, (mapM_result_ok _ memTag).
Qed.

Lemma array_map_write_capitalised (kvs : list (value * value)) :
  array_map writeTag (VArr (diskTag <$> kvs)) = inr (VArr (diskTag <$> kvs)).
Proof.
  unfold array_map. by rewrite mapM_result_fmap, (mapM_result_ok _ diskTag).
Qed.

Lemma array_map_write_twice tags written :
  array_map writeTag tags = inr written →
  array_map writeTag written = inr written.
Proof.
  destruct tags; try done. unfold array_map.
  destruct (mapM writeTag xs) as [e|l'] eqn:Hl; [done|].
  rewrite fmap_inr. intros [= <-].
  by rewrite (mapM_twice _ _ _ writeTag_twice Hl).
Qed.

Lemma patches_round_trip E manifest :
  wf_manifest E memTags manifest →
  ∃ written,
    patchStackTagsOnWrite E manifest = inr written
    ∧ patchStackTagsOnRead E written = inr manifest.
Proof.
  apply replaceStackTags_undoes. intros d (kvs & ->) _.
  destruct (array_map_write_read kvs) as [Hwrite Hread].
  by exists (VArr (diskTag <$> kvs)).
Qed.


Lemma stack_with_mem_tags_wf E :
  wf_manifest E memTags (Fixtures.stack_with Fixtures.mem_tags).
Proof.
  eexists. split; [reflexivity|]. split.
  { apply (bool_decide_unpack _). vm_compute. exact I. }
  right. exists (<["Stack" := Fixtures.stack_artifact Fixtures.mem_tags]> ∅).
  split; [vm_compute; reflexivity|].
  apply map_Forall_insert_2; [|apply map_Forall_empty].
  eexists. split; [reflexivity|]. intros _. split.
  { apply (bool_decide_unpack _). vm_compute. exact I. }
  right. exists (<["/Stack" := VArr [Fixtures.tags_entry Fixtures.mem_tags]]> ∅).
  split; [vm_compute; reflexivity|].
  apply map_Forall_insert_2; [|apply map_Forall_empty].
  eexists. split; [reflexivity|]. constructor; [|constructor].
  eexists. split; [reflexivity|]. intros _ data Hdata _.
  vm_compute in Hdata. injection Hdata as <-.
  exists [(VStr "team", VStr "infra")]. reflexivity.
Qed.


End ManifestFacts.

(** * Properties of the container-image handler *)

Module ContainerFacts.
Import ContainerImages ContainerViews.
Local Open Scope list_scope.

Section WithEnv.
Context (E : Env).

(** ** Running the monad *)

Lemma run_bind {A B} (m : M A) (k : A → M B) s :
  (m ≫= k) s =
    match m s with
    | (inr a, s') => k a s'
    | (inl e, s') => (inl e, s')
    end.
Proof. reflexivity. Qed.

Lemma run_call {A} (c : Call) (answer : list Call → exception + A) s :
  call c answer s = (answer (calls s), after s [c]).
Proof. reflexivity. Qed.

Lemma bind_throw_never_returns {A B} (m : M A) (f : A → exception) s (b : B) s' :
  (a ← m; throw (f a)) s ≠ (inr b, s').
Proof. rewrite run_bind. by destruct (m s) as [[e|a] s'']. Qed.

Lemma run_aborted s : aborted E s = (inr (host_aborted E (calls s)), s).
Proof. reflexivity. Qed.

Lemma after_after s l1 l2 : after (after s l1) l2 = after s (l1 ++ l2).
Proof. unfold after. cbn. by rewrite app_assoc. Qed.

(** ** The existence check *)

Lemma imageExists_run ecr repositoryName imageTag s :
  imageExists E ecr repositoryName imageTag s =
    (match on_describeImages E (calls s) ecr repositoryName [imageTag] with
     | inr _ => inr true
     | inl e =>
         if String.eqb (name e) "ImageNotFoundException" then inr false else inl e
     end,
     after s [ecr_describeImages ecr repositoryName [imageTag]]).
Proof.
  unfold imageExists, try_catch. rewrite run_bind, run_call.
  destruct (on_describeImages E (calls s) ecr repositoryName [imageTag]) as [e|[]];
    [|done].
  by destruct (String.eqb (name e) "ImageNotFoundException").
Qed.

Lemma repositoryUri_run ecr repositoryName s :
  repositoryUri E ecr repositoryName s =
    (match on_describeRepositories E (calls s) ecr [repositoryName] with
     | inr response =>
         inr (head (default [] (SDK.repositories response)) ≫= SDK.repositoryUri)
     | inl e =>
         if String.eqb (name e) "RepositoryNotFoundException" then inr None
         else inl e
     end,
     after s [ecr_describeRepositories ecr [repositoryName]]).
Proof.
  unfold repositoryUri, try_catch. rewrite run_bind, run_call.
  destruct (on_describeRepositories E (calls s) ecr [repositoryName]) as [e|response];
    [|done].
  by destruct (String.eqb (name e) "RepositoryNotFoundException").
Qed.

(** ** Resolving the init state *)

Section Handler.
Context (workDir : string) (asset : DockerImageManifestEntry)
  (options : IHandlerOptions).

Lemma destinationAlreadyExists_run ecr destination imageUri s :
  handler_destinationAlreadyExists E ecr destination imageUri s =
    let check := host_emitMessage CHECK ("Check " +:+ imageUri) in
    let describe :=
      ecr_describeImages ecr (repositoryName destination) [imageTag destination] in
    match imageExists E ecr (repositoryName destination) (imageTag destination)
            (after s [check]) with
    | (inr true, _) =>
        (inr true,
         after s [check; describe; host_emitMessage FOUND ("Found " +:+ imageUri)])
    | (r, _) => (r, after s [check; describe])
    end.
Proof.
  unfold handler_destinationAlreadyExists, emitMessage.
  rewrite run_bind, run_call, run_bind. cbn zeta.
  rewrite imageExists_run.
  destruct (on_describeImages E _ ecr _ _) as [e|[]].
  - destruct (String.eqb (name e) "ImageNotFoundException");
      by rewrite after_after.
  - by rewrite run_bind, run_call, !after_after.
Qed.

Lemma initOnce_memoized quiet s i :
  init s = Some i → initOnce E asset quiet s = (inr i, s).
Proof. intros Hi. unfold initOnce, get_init. rewrite run_bind. by rewrite Hi. Qed.

(** Resolution only makes resolution calls, stores the init state it
    returns, and leaves [init] alone when it throws. *)
Lemma initOnce_effect quiet s r s' :
  initOnce E asset quiet s = (r, s') →
  ∃ new_calls,
    s' = {| init := match r with inr i => Some i | inl _ => init s end;
            calls := calls s ++ new_calls |}
    ∧ Forall (λ c, resolution_call c = true) new_calls.
Proof.
  destruct s as [[i|] history].
  { rewrite (initOnce_memoized quiet {| init := Some i; calls := history |} i eq_refl).
    intros [= <- <-].
    exists []. cbn. by rewrite app_nil_r. }
  unfold initOnce, get_init. rewrite run_bind. cbn [init]. rewrite run_bind, run_call.
  destruct (on_replaceAwsPlaceholders E _ _) as [e|destination].
  { intros [= <- <-]. eexists. split; [done|]. by repeat constructor. }
  rewrite run_bind, run_call.
  destruct (on_ecrClient E _ _ _) as [e|ecr].
  { intros [= <- <-]. rewrite after_after. eexists.
    split; [done|]. by repeat constructor. }
  rewrite run_bind, repositoryUri_run, !after_after.
  destruct (on_describeRepositories E _ _ _) as [e|response].
  - destruct (String.eqb (name e) "RepositoryNotFoundException").
    + cbn [nonempty negb]. rewrite run_bind, run_call.
      destruct (on_discoverCurrentAccount E _) as [e'|account];
        intros [= <- <-]; rewrite after_after; eexists;
        (split; [done|]); by repeat constructor.
    + intros [= <- <-]. eexists. split; [done|]. by repeat constructor.
  - destruct (nonempty _).
    + cbn [negb]. rewrite run_bind, destinationAlreadyExists_run. cbn zeta.
      rewrite imageExists_run.
      destruct (on_describeImages E _ _ _ _) as [e|[]].
      * destruct (String.eqb (name e) "ImageNotFoundException").
        -- rewrite run_bind. intros [= <- <-]. cbn. rewrite <-app_assoc.
           eexists. split; [done|]. by repeat constructor.
        -- intros [= <- <-]. rewrite after_after. eexists.
           split; [done|]. by repeat constructor.
      * rewrite run_bind. intros [= <- <-]. cbn. rewrite <-app_assoc.
        eexists. split; [done|]. by repeat constructor.
    + cbn [negb]. rewrite run_bind, run_call.
      destruct (on_discoverCurrentAccount E _) as [e'|account];
        intros [= <- <-]; rewrite after_after; eexists;
        (split; [done|]); by repeat constructor.
Qed.

(** What a first, successful resolution did: the calls it made, in order,
    and the answer of the registry that became the existence fact. *)
Lemma initOnce_first quiet s i s' :
  init s = None →
  initOnce E asset quiet s = (inr i, s') →
  ∃ destination,
    let resolved :=
      [replaceAwsPlaceholders (ContainerImages.destination asset);
       aws_ecrClient destination quiet;
       ecr_describeRepositories (ecr i) [repositoryName destination];
       host_emitMessage CHECK ("Check " +:+ imageUri i)] in
    let describe :=
      ecr_describeImages (ecr i) (repositoryName destination) [imageTag destination] in
    calls s' =
      (calls s ++ resolved ++ [describe]
         ++ (if destinationAlreadyExists i
             then [host_emitMessage FOUND ("Found " +:+ imageUri i)] else []))%list
    ∧ match on_describeImages E (calls s ++ resolved)%list (ecr i)
              (repositoryName destination) [imageTag destination] with
      | inr _ => destinationAlreadyExists i = true
      | inl e =>
          destinationAlreadyExists i = false ∧ name e = "ImageNotFoundException"
      end.
Proof.
  destruct s as [this_init history]. cbn [init calls]. intros ->.
  unfold initOnce, get_init. rewrite run_bind. cbn [init]. rewrite run_bind, run_call.
  destruct (on_replaceAwsPlaceholders E _ _) as [e|destination]; [done|].
  rewrite run_bind, run_call.
  destruct (on_ecrClient E _ _ _) as [e|ecr]; [done|].
  rewrite run_bind, repositoryUri_run, !after_after.
  destruct (on_describeRepositories E _ _ _) as [e|response].
  - destruct (String.eqb (name e) "RepositoryNotFoundException"); [|done].
    cbn [nonempty negb]. intros H. by apply bind_throw_never_returns in H.
  - destruct (nonempty _) eqn:Huri; cbn [negb];
      [|intros H; by apply bind_throw_never_returns in H].
    rewrite run_bind, destinationAlreadyExists_run. cbn zeta.
    rewrite imageExists_run. cbn [calls after].
    destruct (on_describeImages E _ _ _ _) as [e|[]] eqn:Himage.
    + destruct (String.eqb (name e) "ImageNotFoundException") eqn:Hname; [|done].
      rewrite run_bind. intros [= <- <-]. exists destination. cbn.
      rewrite <-!app_assoc. split; [done|].
      cbn in Himage. rewrite <-!app_assoc in Himage. cbn in Himage.
      rewrite Himage. split; [done|]. by apply String.eqb_eq.
    + rewrite run_bind. intros [= <- <-]. exists destination. cbn.
      rewrite <-!app_assoc. split; [done|].
      cbn in Himage. rewrite <-!app_assoc in Himage. cbn in Himage.
      by rewrite Himage.
Qed.

(** ** Strategy selection *)

Lemma buildExternalAsset_run executable s :
  buildExternalAsset E workDir executable None s =
    if host_aborted E (calls s ++ [building_with_command executable])
    then (inr None, after s [building_with_command executable])
    else (match on_shell E (calls s ++ [building_with_command executable])
                  executable workDir "ignore" with
          | inr output => inr (Some (trim output))
          | inl e => inl e
          end,
          after s [building_with_command executable;
                   shell executable workDir "ignore"]).
Proof.
  unfold buildExternalAsset, emitMessage, aborted.
  rewrite run_bind, run_call, run_bind. cbn [calls after default].
  fold (building_with_command executable).
  destruct (host_aborted E _); [done|].
  rewrite run_bind, run_call, after_after. cbn [calls after].
  by destruct (on_shell E _ _ _ _).
Qed.


(** ** The handler's operations *)

Lemma resolution_call_harmless c :
  resolution_call c = true →
  build_engine_call c = false
  ∧ external_command c = false
  ∧ registry_mutation c = false.
Proof. by destruct c. Qed.

(** C6.  Let resolving the init state of a handler yield a destination
    that already exists.  Then [build] returns right after that resolution,
    having made resolution calls only: no call on the build engine, no
    external command and no call that changes the registry; when this is
    the first resolution, the calls end with the existence check and its
    [FOUND] message.  A second [build] returns from the memoized init state
    without making any call at all. *)
Theorem build_twice_when_destination_exists s0 i s1 :
  initOnce E asset None s0 = (inr i, s1) →
  destinationAlreadyExists i = true →
  build E workDir asset options s0 = (inr tt, s1)
  ∧ build E workDir asset options s1 = (inr tt, s1)
  ∧ init s1 = Some i
  ∧ (∃ new_calls,
       calls s1 = calls s0 ++ new_calls
       ∧ Forall (λ c, build_engine_call c = false
                      ∧ external_command c = false
                      ∧ registry_mutation c = false) new_calls)
  ∧ (init s0 = None →
     ∃ destination,
       calls s1 =
         calls s0 ++
           [replaceAwsPlaceholders (ContainerImages.destination asset);
            aws_ecrClient destination None;
            ecr_describeRepositories (ecr i) [repositoryName destination];
            host_emitMessage CHECK ("Check " +:+ imageUri i);
            ecr_describeImages (ecr i) (repositoryName destination)
              [imageTag destination];
            host_emitMessage FOUND ("Found " +:+ imageUri i)]).
Proof.
  intros Hinit Hexists.
  destruct (initOnce_effect _ _ _ _ Hinit) as (new_calls & Hs1 & Hcalls).
  assert (Hmemo : init s1 = Some i) by by rewrite Hs1.
  split; [|split; [|split; [|split]]].
  - unfold build. rewrite run_bind, Hinit. by rewrite Hexists.
  - unfold build. rewrite run_bind, (initOnce_memoized None s1 i Hmemo).
    by rewrite Hexists.
  - done.
  - exists new_calls. split; [by rewrite Hs1|].
    eapply Forall_impl; [exact Hcalls|]. apply resolution_call_harmless.
  - intros Hfresh.
    destruct (initOnce_first _ _ _ _ Hfresh Hinit) as (destination & Hfirst & _).
    exists destination. rewrite Hfirst, Hexists. reflexivity.
Qed.

(** C7.  [isPublished] always returns.  It returns the existence fact of
    the init state when resolution completes, and [false], after a debug
    message carrying the exception's message, when resolution throws.  The
    existence check itself answers [false] for a registry failure named
    [ImageNotFoundException], [true] when the registry answers, and rethrows
    anything else; on a first resolution the existence fact is [true]
    exactly when the registry answered the lookup of the image. *)
Theorem isPublished_never_throws s :
  (∃ published s',
     isPublished E asset s = (inr published, s')
     ∧ match initOnce E asset (Some true) s with
       | (inr i, s1) => published = destinationAlreadyExists i ∧ s' = s1
       | (inl e, s1) =>
           published = false ∧ s' = after s1 [host_emitMessage DEBUG (message e)]
       end)
  ∧ (∀ ecr repositoryName imageTag s0,
       (imageExists E ecr repositoryName imageTag s0).1 =
         match on_describeImages E (calls s0) ecr repositoryName [imageTag] with
         | inr _ => inr true
         | inl e =>
             if String.eqb (name e) "ImageNotFoundException" then inr false
             else inl e
         end)
  ∧ (∀ i s1,
       init s = None →
       initOnce E asset (Some true) s = (inr i, s1) →
       ∃ destination,
         let history :=
           calls s ++
             [replaceAwsPlaceholders (ContainerImages.destination asset);
              aws_ecrClient destination (Some true);
              ecr_describeRepositories (ecr i) [repositoryName destination];
              host_emitMessage CHECK ("Check " +:+ imageUri i)] in
         match on_describeImages E history (ecr i)
                 (repositoryName destination) [imageTag destination] with
         | inr _ => destinationAlreadyExists i = true
         | inl e =>
             destinationAlreadyExists i = false
             ∧ name e = "ImageNotFoundException"
         end).
Proof.
  split; [|split].
  - unfold isPublished, try_catch. rewrite run_bind.
    destruct (initOnce E asset (Some true) s) as [[e|i] s1].
    + unfold emitMessage. rewrite run_bind, run_call. by eexists _, _.
    + by eexists _, _.
  - intros. by rewrite imageExists_run.
  - intros i s1 Hfresh Hinit.
    destruct (initOnce_first _ _ _ _ Hfresh Hinit) as (destination & _ & Hanswer).
    by exists destination.
Qed.


End Handler.

End WithEnv.

(** ** The handler on concrete accounts *)

Section Examples.
Import ContainerFixtures.



(** Two builds against a registry that already holds the image. *)
Lemma build_twice_when_destination_exists_witness :
  ∃ s1,
    build (account (inr tt) false) "/work" asset_with_directory handler_options fresh
      = (inr tt, s1)
    ∧ build (account (inr tt) false) "/work" asset_with_directory handler_options s1
      = (inr tt, s1)
    ∧ length (calls s1) = 6.
Proof.
  eexists.
  destruct (build_twice_when_destination_exists (account (inr tt) false) "/work"
              asset_with_directory handler_options fresh _ _ eq_refl eq_refl)
    as (Hfirst & Hsecond & _).
  split; [exact Hfirst|]. split; [exact Hsecond|]. reflexivity.
Defined.

(** [isPublished] against a registry that denies access, one that does not
    hold the image, and one that does. *)
Lemma isPublished_examples :
  (isPublished (account (inl access_denied) false) asset_with_directory fresh).1
    = inr false
  ∧ (isPublished (account (inl not_found) false) asset_with_directory fresh).1
    = inr false
  ∧ (isPublished (account (inr tt) false) asset_with_directory fresh).1
    = inr true.
Proof. repeat split; vm_compute; reflexivity. Qed.

Lemma isPublished_never_throws_witness :
  ∃ published s',
    isPublished (account (inl access_denied) false) asset_with_directory fresh
      = (inr published, s')
    ∧ published = false
    ∧ last (calls s') = Some (host_emitMessage DEBUG "User is not authorized").
Proof.
  destruct (proj1 (isPublished_never_throws (account (inl access_denied) false)
                     asset_with_directory fresh))
    as (published & s' & Hrun & Hinit).
  exists published, s'. split; [exact Hrun|].
  vm_compute in Hinit. destruct Hinit as [-> ->]. by split.
Defined.


(** Building and then publishing an image that the registry does not hold:
    one build under the deterministic tag, one push to the resolved URI, and
    the events [CHECK], [BUILD], [UPLOAD] once each, in that order. *)
Example build_then_publish :
  ∃ s1 s2,
    build (account (inl not_found) false) "/work" asset_with_directory
      handler_options fresh = (inr tt, s1)
    ∧ publish (account (inl not_found) false) asset_with_directory
        handler_options s1 = (inr tt, s2)
    ∧ events (calls s2) = [CHECK; BUILD; UPLOAD]
    ∧ build_tag <$> omap (λ c, match c with
                               | docker_build _ options => Some options
                               | _ => None
                               end) (calls s2)
      = ["cdkasset-abc123"]
    ∧ filter (λ c, registry_mutation c = true) (calls s2)
      = [dockerFactory_forEcrPush
           "123456789012.dkr.ecr.eu-west-1.amazonaws.com/myrepo" 1%N "stdio";
         docker_push 3%N
           "123456789012.dkr.ecr.eu-west-1.amazonaws.com/myrepo:latest"].
Proof. eexists _, _. repeat split; vm_compute; reflexivity. Qed.

End Examples.

End ContainerFacts.

(** * Further properties of the manifest protocol *)

Module ManifestMore.
Import JS Manifest ManifestViews MoreViews ManifestFacts.

Section Validation.
Context (E : Env).


(** Enum relaxation only lets more manifests through: what is accepted
    without it is accepted with it, the version check being skipped or not
    in both. *)
Theorem relaxation_accepts_more manifest schema strict relaxed :
  flag strict skipVersionCheck = flag relaxed skipVersionCheck →
  flag strict skipEnumCheck = false →
  validate E manifest schema strict = inr tt →
  validate E manifest schema relaxed = inr tt.
Proof.
  intros Hversion Hstrict. unfold validate. rewrite <-Hversion, Hstrict.
  destruct (semver_major E <$> parseVersion E (VStr (version E)))
    as [e|maxSupported]; [done|].
  rewrite !bind_inr.
  destruct (prop manifest "version") as [e|candidate]; [done|].
  rewrite !bind_inr.
  destruct (parseVersion E candidate) as [e|actual]; [done|].
  rewrite !bind_inr.
  destruct (_ && _); [done|].
  destruct (Validator_validate E manifest schema validateAssumeRoleAdditionalOptions)
    as [e|errors]; [done|].
  rewrite !bind_inr. cbn zeta.
  destruct errors as [|error errors]; [by destruct (flag relaxed skipEnumCheck)|].
  done.
Qed.

End Validation.

(** ** The patches on arbitrary documents *)

Lemma mapM_throws_only_TypeError {A} (f : value → result A) (l : list value) e :
  throws_only_TypeError f → mapM f l = inl e → e = TypeError.
Proof.
  intros Hf Hl.
  destruct (mapM_result_cases f l) as [(bs & Hbs & _)|(x & e' & _ & Hx & He')].
  - congruence.
  - rewrite He' in Hl. injection Hl as <-. by apply (Hf x).
Qed.

Lemma array_map_throws_only_TypeError (f : value → result value) :
  throws_only_TypeError f → throws_only_TypeError (array_map f).
Proof.
  intros Hf [] e; try (by intros [= <-]). unfold array_map.
  destruct (mapM f xs) as [e'|l] eqn:Hl; [|done].
  intros [= <-]. by apply (mapM_throws_only_TypeError f xs).
Qed.

Lemma map_members_throws_only_TypeError (f : value → result value)
    (m : gmap string value) e :
  throws_only_TypeError f → map_members f m = inl e → e = TypeError.
Proof.
  intros Hf. unfold map_members.
  destruct (mapM_result_cases (λ kv : string * value, pair kv.1 <$> f kv.2)
              (map_to_list m)) as [(bs & -> & _)|([k v] & e' & _ & Hx & ->)].
  - done.
  - intros [= <-]. cbn in Hx. destruct (f v) as [e''|v'] eqn:Hv; [|done].
    injection Hx as <-. by apply (Hf v).
Qed.

(** A member on which [f] throws makes [map_members] throw. *)
Lemma map_members_fails (f : value → result value) (m : gmap string value) k v e :
  m !! k = Some v → f v = inl e → ∃ e', map_members f m = inl e'.
Proof.
  intros Hk Hv. unfold map_members.
  destruct (mapM_result_cases (λ kv : string * value, pair kv.1 <$> f kv.2)
              (map_to_list m)) as [(bs & _ & Hall)|(x & e' & _ & _ & ->)].
  - apply elem_of_map_to_list, list_elem_of_lookup in Hk as [i Hi].
    destruct (Forall2_lookup_l _ _ _ _ _ Hall Hi) as (b & _ & Hb).
    cbn in Hb. by rewrite Hv in Hb.
  - by exists e'.
Qed.

Lemma mapValues_throws_only_TypeError (f : value → result value) xs e :
  throws_only_TypeError f → mapValues xs f = inl e → e = TypeError.
Proof.
  intros Hf. unfold mapValues. destruct (truthy xs); [|done].
  destruct (map_members f (own_props xs)) as [e'|m] eqn:Hm; [|done].
  intros [= <-]. by apply (map_members_throws_only_TypeError f (own_props xs)).
Qed.

Lemma prop_throws_only_TypeError v k e : prop v k = inl e → e = TypeError.
Proof. destruct v; cbn; by intros [= <-]. Qed.

Lemma readTag_throws_only_TypeError : throws_only_TypeError readTag.
Proof.
  intros v e. unfold readTag.
  destruct (prop v "Key") as [e'|Key] eqn:HKey.
  { intros [= <-]. by apply (prop_throws_only_TypeError v "Key"). }
  rewrite bind_inr.
  destruct (prop v "Value") as [e'|Value] eqn:HValue; [|done].
  intros [= <-]. by apply (prop_throws_only_TypeError v "Value").
Qed.

Lemma writeTag_throws_only_TypeError : throws_only_TypeError writeTag.
Proof.
  intros v e. unfold writeTag.
  destruct v; cbn; try (by intros [= <-]). by case_bool_decide.
Qed.

Section Patches.
Context (E : Env).

Lemma entry_step_throws_only_TypeError fn :
  throws_only_TypeError fn → throws_only_TypeError (entry_step E fn).
Proof.
  intros Hfn entry e. unfold entry_step.
  destruct (prop entry "type") as [e'|t] eqn:Ht.
  { intros [= <-]. by apply (prop_throws_only_TypeError entry "type"). }
  rewrite bind_inr. destruct (_ || _); [done|].
  destruct (fn (prop_opt entry "data")) as [e'|data] eqn:Hdata; [|done].
  intros [= <-]. by apply (Hfn (prop_opt entry "data")).
Qed.

Lemma artifact_step_throws_only_TypeError fn :
  throws_only_TypeError fn → throws_only_TypeError (artifact_step E fn).
Proof.
  intros Hfn artifact e. unfold artifact_step.
  destruct (prop artifact "type") as [e'|t] eqn:Ht.
  { intros [= <-]. by apply (prop_throws_only_TypeError artifact "type"). }
  rewrite bind_inr. destruct (differs_from t _); [done|].
  destruct (prop artifact "metadata") as [e'|metadata] eqn:Hmetadata.
  { intros [= <-]. by apply (prop_throws_only_TypeError artifact "metadata"). }
  rewrite bind_inr.
  destruct (mapValues metadata (array_map (entry_step E fn))) as [e'|m] eqn:Hm;
    [|done].
  intros [= <-]. eapply mapValues_throws_only_TypeError; [|exact Hm].
  by apply array_map_throws_only_TypeError, entry_step_throws_only_TypeError.
Qed.

Lemma replaceStackTags_eq manifest fn :
  replaceStackTags E manifest fn =
    (manifest_artifacts ← prop manifest "artifacts";
     artifacts ← mapValues manifest_artifacts (artifact_step E fn);
     ok (VObj (noUndefined (<["artifacts" := artifacts]> (own_props manifest))))).
Proof. reflexivity. Qed.

Lemma replaceStackTags_throws_only_TypeError fn manifest e :
  throws_only_TypeError fn →
  replaceStackTags E manifest fn = inl e → e = TypeError.
Proof.
  intros Hfn. rewrite replaceStackTags_eq.
  destruct (prop manifest "artifacts") as [e'|artifacts] eqn:Hartifacts.
  { intros [= <-]. by apply (prop_throws_only_TypeError manifest "artifacts"). }
  rewrite bind_inr.
  destruct (mapValues artifacts (artifact_step E fn)) as [e'|m] eqn:Hm; [|done].
  intros [= <-]. eapply mapValues_throws_only_TypeError; [|exact Hm].
  by apply artifact_step_throws_only_TypeError.
Qed.

(** The two patches run on documents that no schema has checked yet.  They
    throw nothing but [TypeError]; they do throw it on a [null] or
    [undefined] document and on a document one of whose artifacts is
    [null] or [undefined]. *)
Theorem patches_throw_TypeError :
  (∀ manifest e,
     patchStackTagsOnRead E manifest = inl e ∨ patchStackTagsOnWrite E manifest = inl e →
     e = TypeError)
  ∧ (∀ manifest,
       is_nullish manifest = true →
       patchStackTagsOnRead E manifest = inl TypeError
       ∧ patchStackTagsOnWrite E manifest = inl TypeError)
  ∧ (∀ fields artifacts name artifact,
       fields !! "artifacts" = Some (VObj artifacts) →
       artifacts !! name = Some artifact →
       is_nullish artifact = true →
       patchStackTagsOnRead E (VObj fields) = inl TypeError
       ∧ patchStackTagsOnWrite E (VObj fields) = inl TypeError).
Proof.
  assert (Hread := array_map_throws_only_TypeError _ readTag_throws_only_TypeError).
  assert (Hwrite := array_map_throws_only_TypeError _ writeTag_throws_only_TypeError).
  split; [|split].
  - intros manifest e [He|He];
      by eapply replaceStackTags_throws_only_TypeError in He.
  - by intros [].
  - intros fields artifacts name artifact Hartifacts Hname Hnullish.
    assert (Hstep : ∀ fn, artifact_step E fn artifact = inl TypeError)
      by by destruct artifact.
    assert (Hfails : ∀ fn, throws_only_TypeError fn →
              replaceStackTags E (VObj fields) fn = inl TypeError).
    { intros fn Hfn.
      destruct (replaceStackTags E (VObj fields) fn) as [e|r] eqn:Hr.
      { f_equal. by eapply replaceStackTags_throws_only_TypeError. }
      rewrite replaceStackTags_eq in Hr. cbn [prop own_props] in Hr.
      rewrite bind_inr, Hartifacts in Hr. cbn [default from_option id] in Hr.
      unfold mapValues in Hr. cbn [truthy own_props] in Hr.
      destruct (map_members_fails _ _ _ _ _ Hname (Hstep fn)) as [e' He'].
      by rewrite He' in Hr. }
    split; by apply Hfails.
Qed.



End Patches.

(** ** The two directions of the patch *)

(** The read direction is unconditional: it does not look whether a tag is
    already in the object-model form.  Applied to an object without [Key]
    and [Value] members it yields a pair of [undefined]s, so that applied to
    tags of the object model it erases them; the write direction does not
    bring them back. *)
Theorem readTag_erases_object_model_tags :
  (∀ fields,
     fields !! "Key" = None → fields !! "Value" = None →
     readTag (VObj fields) = inr (memTag (VUndefined, VUndefined)))
  ∧ (∀ kvs : list (value * value),
       array_map readTag (VArr (memTag <$> kvs))
       = inr (VArr ((λ _, memTag (VUndefined, VUndefined)) <$> kvs)))
  ∧ (∀ kvs : list (value * value),
       array_map writeTag (VArr ((λ _, memTag (VUndefined, VUndefined)) <$> kvs))
       = inr (VArr ((λ _, diskTag (VUndefined, VUndefined)) <$> kvs))).
Proof.
  split; [|split].
  - intros fields HKey HValue. unfold readTag. cbn. by rewrite HKey, HValue.
  - intros kvs. unfold array_map.
    by rewrite mapM_result_fmap,
      (mapM_result_ok _ (λ _, memTag (VUndefined, VUndefined))).
  - intros kvs. unfold array_map.
    by rewrite mapM_result_fmap,
      (mapM_result_ok _ (λ _, diskTag (VUndefined, VUndefined))).
Qed.

Lemma array_map_read_write (kvs : list (value * value)) :
  array_map readTag (VArr (diskTag <$> kvs)) = inr (VArr (memTag <$> kvs))
  ∧ array_map writeTag (VArr (memTag <$> kvs)) = inr (VArr (diskTag <$> kvs)).
Proof. destruct (array_map_write_read kvs). by split. Qed.


Section Files.
Context (E : Env).

Lemma loadManifest_eq filePath schema preprocess options fs :
  loadManifest E filePath schema preprocess options fs =
    match fs !! filePath with
    | None => inl (SystemError "ENOENT")
    | Some contents =>
        match JSON_parse E contents with
        | inl message =>
            inl (Error (message +:+ ", while parsing "
                        +:+ JSON_stringify E (VStr contents) 0))
        | inr parsed =>
            match (match preprocess with
                   | Some patch => patch parsed
                   | None => inr parsed
                   end) with
            | inl e => inl e
            | inr obj =>
                match validate E obj schema options with
                | inl e => inl e
                | inr _ => inr obj
                end
            end
        end
    end.
Proof.
  unfold loadManifest. destruct (fs !! filePath) as [contents|]; [|done].
  rewrite bind_inr. destruct (JSON_parse E contents) as [message|parsed]; [done|].
  rewrite bind_inr. destruct preprocess as [patch|].
  - destruct (patch parsed) as [e|obj]; [done|]. rewrite bind_inr.
    by destruct (validate E obj schema options).
  - unfold ok. rewrite bind_inr. by destruct (validate E parsed schema options).
Qed.


(** A file whose content parses to [null] is refused by each of the three
    loaders with a [TypeError], raised by the property read of the patch or
    of the version gate, before any schema is consulted. *)
Theorem load_null_document (l : loader) filePath fs contents supported :
  semver_valid E (VStr (version E)) = Some supported →
  fs !! filePath = Some contents →
  JSON_parse E contents = inr VNull →
  run_loader E l filePath fs = inl TypeError.
Proof.
  intros Hsup Hfile Hparse.
  assert (Hvalidate : ∀ schema options, validate E VNull schema options = inl TypeError).
  { intros. unfold validate, parseVersion, ok. by rewrite Hsup. }
  destruct l as [options| |]; cbn [run_loader].
  - unfold loadAssemblyManifest. by rewrite loadManifest_eq, Hfile, Hparse.
  - unfold loadAssetManifest. by rewrite loadManifest_eq, Hfile, Hparse, Hvalidate.
  - unfold loadIntegManifest. by rewrite loadManifest_eq, Hfile, Hparse, Hvalidate.
Qed.

(** A file that does not exist, or whose content does not parse, makes each
    loader throw before any patch or validation: the system error for the
    missing file, and for the malformed one an [Error] whose message is the
    parser's followed by the serialised raw content. *)
Theorem load_unreadable_file (l : loader) filePath fs :
  (fs !! filePath = None →
   run_loader E l filePath fs = inl (SystemError "ENOENT"))
  ∧ (∀ contents message,
       fs !! filePath = Some contents →
       JSON_parse E contents = inl message →
       run_loader E l filePath fs =
         inl (Error (message +:+ ", while parsing "
                     +:+ JSON_stringify E (VStr contents) 0))).
Proof.
  split.
  - intros Hfile. destruct l; cbn [run_loader];
      unfold loadAssemblyManifest, loadAssetManifest, loadIntegManifest;
      by rewrite loadManifest_eq, Hfile.
  - intros contents message Hfile Hparse. destruct l; cbn [run_loader];
      unfold loadAssemblyManifest, loadAssetManifest, loadIntegManifest;
      by rewrite loadManifest_eq, Hfile, Hparse.
Qed.

(** What [loadIntegManifest] returns always has a [testCases] member that is
    neither [null] nor [undefined]: the one of the validated document when
    it has one, the empty sequence otherwise.  The other members are those
    of the validated document, which is returned as it is when it is an
    object that has test cases. *)
Theorem loadIntegManifest_testCases filePath fs manifest :
  loadIntegManifest E filePath fs = inr manifest →
  ∃ loaded,
    loadManifest E filePath (INTEG_SCHEMA E) None None fs = inr loaded
    ∧ is_nullish (prop_opt manifest "testCases") = false
    ∧ prop_opt manifest "testCases" =
        (if is_nullish (prop_opt loaded "testCases") then VArr []
         else prop_opt loaded "testCases")
    ∧ (∀ k, k ≠ "testCases" → own_props manifest !! k = own_props loaded !! k)
    ∧ (∀ fields, loaded = VObj fields →
         is_nullish (prop_opt loaded "testCases") = false → manifest = loaded).
Proof.
  unfold loadIntegManifest.
  destruct (loadManifest E filePath (INTEG_SCHEMA E) None None fs) as [e|loaded];
    [done|].
  rewrite bind_inr. intros [= <-]. exists loaded. split; [done|].
  cbn [prop_opt own_props]. rewrite lookup_insert_eq. cbn [default from_option id].
  split; [by destruct (is_nullish (prop_opt loaded "testCases")) eqn:Hn|].
  split; [done|]. split.
  - intros k Hk. by rewrite lookup_insert_ne.
  - intros fields -> Hdefined. rewrite Hdefined. f_equal. cbn [own_props].
    apply insert_id. cbn [prop_opt] in Hdefined |- *.
    by destruct (fields !! "testCases").
Qed.

(** A save is never refused for its version.  What [saveManifest]
    validates carries the tool's own schema version, so that, as soon as
    that version parses, the version gate lets it through whatever the
    options: validation is the structural stage alone, and the
    version-mismatch error cannot come out of a save. *)
Theorem save_passes_version_gate manifest schema options supported :
  semver_valid E (VStr (version E)) = Some supported →
  passes_gate E (withVersion E manifest) options
  ∧ validate E (withVersion E manifest) schema options
    = structural E (withVersion E manifest) schema options
  ∧ ∀ filePath preprocess fs,
      saveManifest E manifest filePath schema preprocess fs =
        (_ ← structural E (withVersion E manifest) schema None;
         patched ← from_option id ok preprocess (withVersion E manifest);
         ok (<[filePath := JSON_stringify E patched 2]> fs)).
Proof.
  intros Hsup.
  assert (Hgate : ∀ options, passes_gate E (withVersion E manifest) options).
  { intros o. exists supported, (VStr (version E)), supported.
    split; [done|]. split; [|split; [done|by left]].
    unfold withVersion. cbn [prop]. by rewrite lookup_insert_ne, lookup_insert_eq. }
  split; [done|]. split; [by apply validate_passes_gate|].
  intros filePath preprocess fs.
  rewrite saveManifest_eq, (validate_passes_gate E _ _ _ (Hgate None)).
  destruct (structural E (withVersion E manifest) schema None) as [e|[]]; [done|].
  rewrite bind_inr. destruct preprocess as [patch|]; cbn [from_option id].
  - by destruct (patch (withVersion E manifest)).
  - unfold ok. by rewrite bind_inr.
Qed.

(** Saving an integration-test manifest and loading the file again gives
    the version-stamped manifest back, with its [testCases] member set to
    the empty sequence when it has none: no patch is applied in either
    direction.  It is assumed that the stamped manifest validates and that
    parsing undoes the serialisation of it. *)
Theorem save_then_load_integ manifest filePath fs :
  validate E (withVersion E manifest) (INTEG_SCHEMA E) None = inr tt →
  JSON_parse E (JSON_stringify E (withVersion E manifest) 2)
    = inr (withVersion E manifest) →
  ∃ fs',
    saveIntegManifest E manifest filePath fs = inr fs'
    ∧ fs' = <[filePath := JSON_stringify E (withVersion E manifest) 2]> fs
    ∧ loadIntegManifest E filePath fs' =
        inr (VObj (<["testCases" :=
                       if is_nullish (prop_opt (withVersion E manifest) "testCases")
                       then VArr []
                       else prop_opt (withVersion E manifest) "testCases"]>
                     (own_props (withVersion E manifest))))
    ∧ (is_nullish (prop_opt (withVersion E manifest) "testCases") = false →
       loadIntegManifest E filePath fs' = inr (withVersion E manifest)).
Proof.
  intros Hvalid Hjson. eexists. split; [|split; [reflexivity|]].
  { unfold saveIntegManifest. by rewrite saveManifest_eq, Hvalid. }
  assert (Hload : loadManifest E filePath (INTEG_SCHEMA E) None None
                    (<[filePath := JSON_stringify E (withVersion E manifest) 2]> fs)
                  = inr (withVersion E manifest)).
  { by rewrite loadManifest_eq, lookup_insert_eq, Hjson, Hvalid. }
  unfold loadIntegManifest. rewrite Hload, bind_inr. split; [done|].
  intros Hdefined. rewrite Hdefined. unfold ok. f_equal.
  unfold withVersion in *.
  set (fields := <["minimumCliVersion" := _]> _) in *.
  f_equal. cbn [own_props]. apply insert_id. cbn [prop_opt] in Hdefined |- *.
  by destruct (fields !! "testCases").
Qed.

End Files.

(** ** On concrete documents *)


Lemma relaxation_accepts_more_witness :
  validate (Fixtures.manifest_env [] [] ∅) Fixtures.old_manifest (VObj ∅)
    Fixtures.relaxed = inr tt.
Proof.
  apply (relaxation_accepts_more (Fixtures.manifest_env [] [] ∅)
           Fixtures.old_manifest (VObj ∅) None Fixtures.relaxed);
    vm_compute; reflexivity.
Defined.

Lemma readTag_erases_object_model_tags_witness :
  readTag (memTag (VStr "team", VStr "infra"))
  = inr (memTag (VUndefined, VUndefined)).
Proof.
  apply (proj1 readTag_erases_object_model_tags); vm_compute; reflexivity.
Defined.

Lemma patches_throw_TypeError_witness :
  patchStackTagsOnRead (Fixtures.manifest_env [] [] ∅)
    (VObj MoreFixtures.null_artifact) = inl TypeError
  ∧ patchStackTagsOnWrite (Fixtures.manifest_env [] [] ∅)
      (VObj MoreFixtures.null_artifact) = inl TypeError.
Proof.
  apply (proj2 (proj2 (patches_throw_TypeError (Fixtures.manifest_env [] [] ∅)))
           MoreFixtures.null_artifact (<["Stack" := VNull]> ∅) "Stack" VNull);
    vm_compute; reflexivity.
Defined.



Lemma stack_artifact_wf E (P : value → Prop) tags :
  P tags →
  wf_artifact E P (Fixtures.stack_artifact tags).
Proof.
  intros Htags. eexists. split; [reflexivity|]. intros _. split.
  { intros k v. unfold Fixtures.stack_artifact, Fixtures.obj. cbn [list_to_map foldr].
    rewrite !lookup_insert. repeat case_decide; by intros [= <-]. }
  right. exists (<["/Stack" := VArr [Fixtures.tags_entry tags]]> ∅).
  split; [by vm_compute|].
  apply map_Forall_insert_2; [|apply map_Forall_empty].
  eexists. split; [reflexivity|]. constructor; [|constructor].
  eexists. split; [reflexivity|]. intros _ data Hdata _.
  unfold Fixtures.obj in Hdata. cbn [list_to_map foldr] in Hdata.
  rewrite lookup_insert_ne, lookup_insert_eq in Hdata by done.
  by injection Hdata as <-.
Qed.

Lemma stack_with_wf E (P : value → Prop) tags :
  P tags → wf_manifest E P (Fixtures.stack_with tags).
Proof.
  intros Htags. eexists. split; [reflexivity|]. split.
  { intros k v. cbn [list_to_map foldr].
    rewrite !lookup_insert. repeat case_decide; by intros [= <-]. }
  right. exists (<["Stack" := Fixtures.stack_artifact tags]> ∅).
  split; [by vm_compute|].
  apply map_Forall_insert_2; [|apply map_Forall_empty].
  by apply stack_artifact_wf.
Qed.

Lemma stamped_wf E (P : value → Prop) tags :
  P tags → wf_manifest E P (MoreFixtures.stamped tags).
Proof.
  intros Htags. eexists. split; [reflexivity|]. split.
  { intros k v. cbn [list_to_map foldr].
    rewrite !lookup_insert. repeat case_decide; by intros [= <-]. }
  right. exists (<["Stack" := Fixtures.stack_artifact tags]> ∅).
  split; [by vm_compute|].
  apply map_Forall_insert_2; [|apply map_Forall_empty].
  by apply stack_artifact_wf.
Qed.



Lemma load_null_document_witness :
  loadAssemblyManifest (Fixtures.stored VNull) "manifest.json" None Fixtures.one_file
    = inl TypeError
  ∧ loadAssetManifest (Fixtures.stored VNull) "manifest.json" Fixtures.one_file
    = inl TypeError.
Proof.
  split.
  - apply (load_null_document (Fixtures.stored VNull) (AssemblyLoader None)
             "manifest.json" Fixtures.one_file "{...}" "48.0.0");
      vm_compute; reflexivity.
  - apply (load_null_document (Fixtures.stored VNull) AssetLoader
             "manifest.json" Fixtures.one_file "{...}" "48.0.0");
      vm_compute; reflexivity.
Defined.

Lemma load_unreadable_file_witness :
  loadIntegManifest (Fixtures.stored VNull) "missing.json" Fixtures.one_file
    = inl (SystemError "ENOENT")
  ∧ loadAssetManifest (Fixtures.manifest_env [] [] ∅) "manifest.json"
      Fixtures.one_file
    = inl (Error ("Unexpected token, while parsing " +:+ Fixtures.quoted "{...}")).
Proof.
  split.
  - apply (proj1 (load_unreadable_file (Fixtures.stored VNull) IntegLoader
                    "missing.json" Fixtures.one_file)).
    vm_compute. reflexivity.
  - apply (proj2 (load_unreadable_file (Fixtures.manifest_env [] [] ∅) AssetLoader
                    "manifest.json" Fixtures.one_file) "{...}" "Unexpected token");
      vm_compute; reflexivity.
Defined.

Lemma loadIntegManifest_testCases_witness :
  ∃ manifest,
    loadIntegManifest (Fixtures.stored MoreFixtures.integ_document)
      "manifest.json" Fixtures.one_file = inr manifest
    ∧ prop_opt manifest "testCases" = VArr [].
Proof.
  destruct (loadIntegManifest (Fixtures.stored MoreFixtures.integ_document)
              "manifest.json" Fixtures.one_file) as [e|manifest] eqn:Hload;
    [vm_compute in Hload; discriminate|].
  exists manifest. split; [reflexivity|].
  destruct (loadIntegManifest_testCases _ _ _ _ Hload)
    as (loaded & Hloaded & _ & Hcases & _).
  rewrite Hcases. vm_compute in Hloaded. injection Hloaded as <-.
  vm_compute. reflexivity.
Defined.

Lemma save_passes_version_gate_witness :
  validate (Fixtures.manifest_env [] [] ∅) (withVersion (Fixtures.manifest_env [] [] ∅)
                                               Fixtures.new_manifest)
    (VObj ∅) None = inr tt.
Proof.
  rewrite (proj1 (proj2 (save_passes_version_gate (Fixtures.manifest_env [] [] ∅)
                           Fixtures.new_manifest (VObj ∅) None "48.0.0" eq_refl))).
  vm_compute. reflexivity.
Defined.

Lemma save_then_load_integ_witness :
  let E := MoreFixtures.parsing MoreFixtures.integ_stamped in
  ∃ fs',
    saveIntegManifest E MoreFixtures.integ_tests "integ.json" ∅ = inr fs'
    ∧ loadIntegManifest E "integ.json" fs' = inr MoreFixtures.integ_stamped.
Proof.
  cbv zeta.
  destruct (save_then_load_integ (MoreFixtures.parsing MoreFixtures.integ_stamped)
              MoreFixtures.integ_tests "integ.json" ∅)
    as (fs' & Hsave & _ & _ & Hload).
  - vm_compute. reflexivity.
  - vm_compute. reflexivity.
  - exists fs'. split; [exact Hsave|]. apply Hload. vm_compute. reflexivity.
Defined.

End ManifestMore.

(** * Further properties of the container-image handler *)

Module ContainerMore.
Import ContainerImages ContainerViews ContainerLogic HandlerViews ContainerFacts.
Local Open Scope list_scope.

Section WithEnv.
Context (E : Env).

(** ** A small logic of effects *)

Lemma effect_ret {A} (Q : Call → Prop) (a : A) : effect Q (mret a : M A).
Proof.
  intros s r s' [= <- <-]. split; [|done]. exists []. by rewrite app_nil_r.
Qed.

Lemma effect_throw {A} (Q : Call → Prop) e : effect Q (throw e : M A).
Proof.
  intros s r s' [= <- <-]. split; [|done]. exists []. by rewrite app_nil_r.
Qed.

Lemma effect_bind {A B} (Q : Call → Prop) (m : M A) (k : A → M B) :
  effect Q m → (∀ a, effect Q (k a)) → effect Q (m ≫= k).
Proof.
  intros Hm Hk s r s'. rewrite run_bind.
  destruct (m s) as [[e|a] s1] eqn:Hs1.
  - intros [= <- <-]. apply (Hm s (inl e) s1 Hs1).
  - intros Hs'. destruct (Hm _ _ _ Hs1) as [(l1 & Hl1 & HQ1) Hinit1].
    destruct (Hk a _ _ _ Hs') as [(l2 & Hl2 & HQ2) Hinit2]. split.
    + exists (l1 ++ l2). rewrite Hl2, Hl1, app_assoc. split; [done|].
      by apply Forall_app.
    + intros i Hi. by apply Hinit2, Hinit1.
Qed.

Lemma effect_call {A} (Q : Call → Prop) c (answer : list Call → exception + A) :
  Q c → effect Q (call c answer).
Proof.
  intros Hc s r s'. rewrite run_call. intros [= <- <-]. split; [|done].
  exists [c]. split; [done|]. by constructor.
Qed.

Lemma effect_aborted (Q : Call → Prop) : effect Q (aborted E).
Proof.
  intros s r s'. rewrite run_aborted. intros [= <- <-]. split; [|done].
  exists []. by rewrite app_nil_r.
Qed.

Lemma effect_try_catch {A} (Q : Call → Prop) (body : M A) handler :
  effect Q body → (∀ e, effect Q (handler e)) → effect Q (try_catch body handler).
Proof.
  intros Hbody Hhandler s r s'. unfold try_catch.
  destruct (body s) as [[e|a] s1] eqn:Hs1.
  - intros Hs'. destruct (Hbody _ _ _ Hs1) as [(l1 & Hl1 & HQ1) Hinit1].
    destruct (Hhandler e _ _ _ Hs') as [(l2 & Hl2 & HQ2) Hinit2]. split.
    + exists (l1 ++ l2). rewrite Hl2, Hl1, app_assoc. split; [done|].
      by apply Forall_app.
    + intros i Hi. by apply Hinit2, Hinit1.
  - intros [= <- <-]. apply (Hbody s (inr a) s1 Hs1).
Qed.

Lemma effect_weaken {A} (Q Q' : Call → Prop) (m : M A) :
  (∀ c, Q c → Q' c) → effect Q m → effect Q' m.
Proof.
  intros HQ Hm s r s' Hs'. destruct (Hm _ _ _ Hs') as [(l & Hl & Hall) Hinit].
  split; [|done]. exists l. split; [done|]. by eapply Forall_impl.
Qed.

Section Handler.
Context (workDir : string) (asset : DockerImageManifestEntry)
  (options : IHandlerOptions).

Lemma effect_initOnce quiet :
  effect (λ c, resolution_call c = true) (initOnce E asset quiet).
Proof.
  intros s r s' Hs'.
  destruct (initOnce_effect E asset quiet s r s' Hs') as (l & -> & Hl).
  split; [by exists l|]. cbn [init]. intros i Hi.
  rewrite (initOnce_memoized E asset quiet s i Hi) in Hs'.
  by injection Hs' as <- _.
Qed.

Ltac effects :=
  repeat first
    [ apply effect_ret
    | apply effect_throw
    | apply effect_aborted
    | apply effect_call; done
    | apply effect_bind; [|intros ?]
    | apply effect_try_catch; [|intros ?]
    | match goal with
      | |- effect _ (if ?b then _ else _) => destruct b
      | |- effect _ (match ?o with Some _ => _ | None => _ end) => destruct o
      end ].

Ltac unfold_builder :=
  unfold builder_build, buildExternalAsset, buildDirectoryAsset,
    isImageCached, buildImage, emitMessage.

Lemma effect_build :
  effect (λ c, registry_mutation c = false) (build E workDir asset options).
Proof.
  unfold build. apply effect_bind.
  { eapply effect_weaken; [|apply effect_initOnce]. by intros []. }
  intros i. unfold_builder. effects.
Qed.

Lemma effect_publish :
  effect (λ c, build_engine_call c = false ∧ external_command c = false)
    (publish E asset options).
Proof.
  unfold publish. apply effect_bind.
  { eapply effect_weaken; [|apply effect_initOnce]. by intros []. }
  intros i. unfold emitMessage. effects.
Qed.

Lemma effect_isPublished :
  effect (λ c, resolution_call c = true) (isPublished E asset).
Proof.
  unfold isPublished, emitMessage. apply effect_try_catch.
  - apply effect_bind; [apply effect_initOnce|]. intros i. apply effect_ret.
  - intros e. apply effect_bind; [by apply effect_call|]. intros _.
    apply effect_ret.
Qed.

(** ** Running the operations *)

Lemma publish_run s0 :
  publish E asset options s0 =
    match initOnce E asset None s0 with
    | (inl e, s1) => (inl e, s1)
    | (inr i, s1) =>
        let forPush :=
          dockerFactory_forEcrPush (repoUri i) (ecr i)
            (subprocessOutputDestination options) in
        let upload := host_emitMessage UPLOAD ("Push " +:+ imageUri i) in
        if destinationAlreadyExists i then (inr tt, s1)
        else if host_aborted E (calls s1) then (inr tt, s1)
        else
          match on_forEcrPush E (calls s1) (repoUri i) (ecr i)
                  (subprocessOutputDestination options) with
          | inl e => (inl e, after s1 [forPush])
          | inr docker =>
              if host_aborted E (calls s1 ++ [forPush])
              then (inr tt, after s1 [forPush])
              else (on_push E (calls s1 ++ [forPush; upload]) docker (imageUri i),
                    after s1 [forPush; upload; docker_push docker (imageUri i)])
          end
    end.
Proof.
  unfold publish. rewrite run_bind.
  destruct (initOnce E asset None s0) as [[e|i] s1]; [done|]. cbn zeta.
  destruct (destinationAlreadyExists i); [done|].
  rewrite run_bind, run_aborted. destruct (host_aborted E (calls s1)); [done|].
  rewrite run_bind, run_call. destruct (on_forEcrPush E _ _ _ _) as [e|docker]; [done|].
  rewrite run_bind, run_aborted. cbn [calls after].
  destruct (host_aborted E _); [done|].
  unfold emitMessage. rewrite run_bind, !run_call, !after_after. cbn [calls after].
  by rewrite <-app_assoc.
Qed.

Lemma buildDirectoryAsset_run docker s :
  buildDirectoryAsset E workDir asset docker s =
    let probe := docker_exists docker (localTag asset) in
    match on_exists E (calls s) docker (localTag asset) with
    | inl e => (inl e, after s [probe])
    | inr true =>
        (inr (Some (localTag asset)),
         after s [probe; host_emitMessage CACHED ("Cached " +:+ localTag asset)])
    | inr false =>
        if host_aborted E (calls s ++ [probe]) then (inr None, after s [probe])
        else if nonempty (directory (source asset)) then
          (match on_build E (calls s ++ [probe; building_at E workDir asset])
                   docker (requested_build E workDir asset) with
           | inl e => inl e
           | inr _ => inr (Some (localTag asset))
           end,
           after s [probe; building_at E workDir asset;
                    docker_build docker (requested_build E workDir asset)])
        else
          (inl (Error ("'directory' is expected in the DockerImage asset source, got: "
                       +:+ JSON_stringify E (source asset))),
           after s [probe])
    end.
Proof.
  unfold buildDirectoryAsset, isImageCached, emitMessage. fold (localTag asset).
  rewrite !run_bind, run_call. cbn zeta.
  destruct (on_exists E _ _ _) as [e|[]]; [done| |].
  - by rewrite run_bind, run_call, after_after.
  - cbn [negb mret M_ret]. rewrite run_bind, run_aborted. cbn [calls after].
    destruct (host_aborted E _); [done|].
    unfold buildImage, emitMessage.
    destruct (nonempty _); cbn [negb]; rewrite run_bind; [|done].
    rewrite run_bind, !run_call, !after_after. cbn [calls after].
    rewrite <-app_assoc. fold (building_at E workDir asset).
    change (on_build E ?h docker _) with
      (on_build E h docker (requested_build E workDir asset)).
    change (docker_build docker _) with
      (docker_build docker (requested_build E workDir asset)).
    by destruct (on_build E _ _ _) as [e|[]].
Qed.

Lemma build_run s0 :
  build E workDir asset options s0 =
    match initOnce E asset None s0 with
    | (inl e, s1) => (inl e, s1)
    | (inr i, s1) =>
        let forBuild :=
          dockerFactory_forBuild (repoUri i) (ecr i)
            (subprocessOutputDestination options) in
        if destinationAlreadyExists i then (inr tt, s1)
        else if host_aborted E (calls s1) then (inr tt, s1)
        else
          match on_forBuild E (calls s1) (repoUri i) (ecr i)
                  (subprocessOutputDestination options) with
          | inl e => (inl e, after s1 [forBuild])
          | inr docker =>
              match builder_build E workDir asset docker (after s1 [forBuild]) with
              | (inl e, s2) => (inl e, s2)
              | (inr None, s2) => (inr tt, s2)
              | (inr (Some localTagName), s2) =>
                  if host_aborted E (calls s2) then (inr tt, s2)
                  else (on_tag E (calls s2) docker localTagName (imageUri i),
                        after s2 [docker_tag docker localTagName (imageUri i)])
              end
          end
    end.
Proof.
  unfold build. rewrite run_bind.
  destruct (initOnce E asset None s0) as [[e|i] s1]; [done|]. cbn zeta.
  destruct (destinationAlreadyExists i); [done|].
  rewrite run_bind, run_aborted. destruct (host_aborted E (calls s1)); [done|].
  rewrite run_bind, run_call. destruct (on_forBuild E _ _ _ _) as [e|docker]; [done|].
  rewrite run_bind.
  destruct (builder_build E workDir asset docker _) as [[e|[localTagName|]] s2];
    [done| |done].
  rewrite run_bind, run_aborted. destruct (host_aborted E (calls s2)) eqn:Hrunning;
    [done|].
  by rewrite run_bind, run_aborted, Hrunning, run_call.
Qed.

Lemma resolved_keeps_init quiet s i s1 :
  initOnce E asset quiet s = (inr i, s1) → init s1 = Some i.
Proof.
  intros Hinit. destruct (initOnce_effect E asset _ _ _ _ Hinit) as (l & -> & _). done.
Qed.

(** ** What the operations never do *)

(** [build] never touches the registry's content: whatever the
    collaborators answer, and whether it returns or throws, the calls made
    before are kept, in order, and none of the calls it adds obtains a push
    handle or pushes. *)
Theorem build_never_pushes s r s' :
  build E workDir asset options s = (r, s') →
  ∃ new_calls,
    calls s' = calls s ++ new_calls
    ∧ Forall (λ c, registry_mutation c = false) new_calls.
Proof. intros Hrun. by destruct (effect_build _ _ _ Hrun). Qed.

(** [publish] never builds: whatever the collaborators answer, none of the
    calls it adds is a call on the build engine or runs an external
    command. *)
Theorem publish_never_builds s r s' :
  publish E asset options s = (r, s') →
  ∃ new_calls,
    calls s' = calls s ++ new_calls
    ∧ Forall (λ c, build_engine_call c = false ∧ external_command c = false)
        new_calls.
Proof. intros Hrun. by destruct (effect_publish _ _ _ Hrun). Qed.

(** [isPublished] only looks things up: every call it adds is a call of the
    resolution (placeholder resolution, client creation, the two registry
    lookups, account discovery) or a progress message; it makes no call on
    the build engine, runs no command and changes nothing in the
    registry. *)
Theorem isPublished_only_resolves s r s' :
  isPublished E asset s = (r, s') →
  ∃ new_calls,
    calls s' = calls s ++ new_calls
    ∧ Forall (λ c, resolution_call c = true
                   ∧ build_engine_call c = false
                   ∧ external_command c = false
                   ∧ registry_mutation c = false) new_calls.
Proof.
  intros Hrun. destruct (effect_isPublished _ _ _ Hrun) as [(l & Hl & Hall) _].
  exists l. split; [done|]. eapply Forall_impl; [exact Hall|].
  intros c Hc. split; [done|]. by apply resolution_call_harmless.
Qed.

(** ** Memoization *)

(** The init state is resolved at most once.  On a handler whose init
    state is set, none of the three operations looks anything up again (no
    placeholder resolution, no client creation, no registry lookup, no
    account discovery), and the init state is still the same afterwards. *)
Theorem resolved_once s i :
  init s = Some i →
  let no_lookup {A} (run : (exception + A) * State) :=
    init run.2 = Some i
    ∧ ∃ new_calls,
        calls run.2 = calls s ++ new_calls
        ∧ Forall (λ c, registry_lookup c = false) new_calls in
  no_lookup (build E workDir asset options s)
  ∧ no_lookup (publish E asset options s)
  ∧ no_lookup (isPublished E asset s).
Proof.
  intros Hi. cbn zeta. split; [|split].
  - split.
    { destruct (build E workDir asset options s) as [r s'] eqn:Hrun.
      by apply (effect_build _ _ _ Hrun). }
    unfold build. rewrite run_bind, (initOnce_memoized E asset None s i Hi).
    match goal with
    | |- ∃ _, calls (?m s).2 = _ ∧ _ =>
        assert (effect (λ c, registry_lookup c = false) m) as Hm
          by (unfold_builder; effects);
        destruct (m s) as [r s'] eqn:Hrun
    end.
    by destruct (Hm _ _ _ Hrun).
  - split.
    { destruct (publish E asset options s) as [r s'] eqn:Hrun.
      by apply (effect_publish _ _ _ Hrun). }
    unfold publish. rewrite run_bind, (initOnce_memoized E asset None s i Hi).
    match goal with
    | |- ∃ _, calls (?m s).2 = _ ∧ _ =>
        assert (effect (λ c, registry_lookup c = false) m) as Hm
          by (unfold emitMessage; effects);
        destruct (m s) as [r s'] eqn:Hrun
    end.
    by destruct (Hm _ _ _ Hrun).
  - unfold isPublished, try_catch.
    rewrite run_bind, (initOnce_memoized E asset (Some true) s i Hi). cbn.
    split; [done|]. exists []. by rewrite app_nil_r.
Qed.

(** The existence fact is never refreshed.  Once resolution answered, the
    handler's [isPublished] answers the existence fact established then,
    without any call, also after [build] or [publish] ran to their end, by
    a return or by a throw: after a push that succeeded, [isPublished]
    still answers what the registry said before the push. *)
Theorem isPublished_not_refreshed s0 i s' r s1 :
  initOnce E asset None s0 = (inr i, s') →
  build E workDir asset options s0 = (r, s1)
  ∨ publish E asset options s0 = (r, s1) →
  isPublished E asset s1 = (inr (destinationAlreadyExists i), s1).
Proof.
  intros Hinit Hrun.
  pose proof (resolved_keeps_init _ _ _ _ Hinit) as Hi.
  pose proof (initOnce_memoized E asset None s' i Hi) as Hmemo.
  assert (init s1 = Some i) as Hi1.
  { destruct Hrun as [Hrun|Hrun].
    - assert (build E workDir asset options s' = (r, s1)) as Hrun'.
      { rewrite <-Hrun. unfold build. by rewrite !run_bind, Hinit, Hmemo. }
      by apply (effect_build _ _ _ Hrun').
    - assert (publish E asset options s' = (r, s1)) as Hrun'.
      { rewrite <-Hrun. unfold publish. by rewrite !run_bind, Hinit, Hmemo. }
      by apply (effect_publish _ _ _ Hrun'). }
  unfold isPublished, try_catch.
  by rewrite run_bind, (initOnce_memoized E asset (Some true) s1 i Hi1).
Qed.

(** When [isPublished] answered [true], a [build] and a [publish] of the
    same handler return at once: no call is made and the state is left as
    it is. *)
Theorem published_then_nothing_to_do s s' :
  isPublished E asset s = (inr true, s') →
  build E workDir asset options s' = (inr tt, s')
  ∧ publish E asset options s' = (inr tt, s').
Proof.
  unfold isPublished, try_catch. rewrite run_bind.
  destruct (initOnce E asset (Some true) s) as [[e|i] s1] eqn:Hinit.
  { unfold emitMessage. rewrite run_bind, run_call. discriminate. }
  intros [= Hexists <-].
  pose proof (resolved_keeps_init _ _ _ _ Hinit) as Hi.
  rewrite build_run, publish_run, (initOnce_memoized E asset None s1 i Hi).
  cbn zeta. by rewrite Hexists.
Qed.

(** ** Failing resolutions *)

(** A repository that is missing fails the resolution by a dedicated
    error, and the failure is not memoized.  Let the handler be
    unresolved, and let the repository lookup fail by
    [RepositoryNotFoundException], or answer no repository, or a first
    repository without a (non-empty) URI.  Then [initOnce] asks for the
    current account and throws the error naming the repository and the
    account (or what the account discovery threw); the image is never looked
    up, and [init] is still unset, so that the next operation resolves
    again. *)
Theorem initOnce_without_repository quiet s destination ecr :
  init s = None →
  let replaced := replaceAwsPlaceholders (ContainerImages.destination asset) in
  let client := aws_ecrClient destination quiet in
  let describe := ecr_describeRepositories ecr [repositoryName destination] in
  on_replaceAwsPlaceholders E (calls s) (ContainerImages.destination asset)
    = inr destination →
  on_ecrClient E (calls s ++ [replaced]) destination quiet = inr ecr →
  match on_describeRepositories E (calls s ++ [replaced; client]) ecr
          [repositoryName destination] with
  | inl e => name e = "RepositoryNotFoundException"
  | inr response =>
      nonempty (head (default [] (SDK.repositories response)) ≫= SDK.repositoryUri)
      = false
  end →
  ∃ s',
    initOnce E asset quiet s =
      (match on_discoverCurrentAccount E (calls s ++ [replaced; client; describe]) with
       | inl e => inl e
       | inr account => inl (no_repository (repositoryName destination) account)
       end, s')
    ∧ init s' = None
    ∧ calls s' = calls s ++ [replaced; client; describe; aws_discoverCurrentAccount].
Proof.
  intros Hfresh replaced client describe Hdestination Hecr Hrepository.
  destruct s as [this_init history]. cbn [init calls] in *. subst this_init.
  exists (after {| init := None; calls := history |}
            [replaced; client; describe; aws_discoverCurrentAccount]).
  split; [|split; reflexivity].
  unfold initOnce, get_init. rewrite run_bind. cbn [init]. rewrite run_bind, run_call.
  cbn [calls]. rewrite Hdestination, run_bind, run_call. cbn [calls after].
  fold replaced. rewrite Hecr. fold client.
  rewrite run_bind, repositoryUri_run, !after_after. cbn [calls after app].
  fold describe.
  destruct (on_describeRepositories E _ _ _) as [e|response].
  - rewrite Hrepository. cbn [String.eqb Ascii.eqb Bool.eqb nonempty negb].
    rewrite run_bind, run_call, after_after. cbn [calls after].
    by destruct (on_discoverCurrentAccount E _).
  - rewrite Hrepository. cbn [negb].
    rewrite run_bind, run_call, after_after. cbn [calls after].
    by destruct (on_discoverCurrentAccount E _).
Qed.

(** A failing resolution fails [build] and [publish] alike: they throw what
    the resolution threw, make no further call, and leave the init state
    as it was. *)
Theorem resolution_failure_propagates s0 e s1 :
  initOnce E asset None s0 = (inl e, s1) →
  build E workDir asset options s0 = (inl e, s1)
  ∧ publish E asset options s0 = (inl e, s1)
  ∧ init s1 = init s0.
Proof.
  intros Hinit. rewrite build_run, publish_run, Hinit. split; [done|]. split; [done|].
  destruct (initOnce_effect E asset _ _ _ _ Hinit) as (l & -> & _). done.
Qed.

(** ** Cancellation and skipping *)

(** A cancellation requested by the time resolution is over stops [build]
    and [publish] right there: both return with the calls of the resolution
    only. *)
Theorem cancelled_at_entry s0 i s1 :
  initOnce E asset None s0 = (inr i, s1) →
  host_aborted E (calls s1) = true →
  build E workDir asset options s0 = (inr tt, s1)
  ∧ publish E asset options s0 = (inr tt, s1).
Proof.
  intros Hinit Haborted. rewrite build_run, publish_run, Hinit. cbn zeta.
  rewrite Haborted. by destruct (destinationAlreadyExists i).
Qed.

(** [publish] skips a destination that already exists: it returns right
    after the resolution, and a second [publish] returns without any
    call. *)
Theorem publish_skips_existing s0 i s1 :
  initOnce E asset None s0 = (inr i, s1) →
  destinationAlreadyExists i = true →
  publish E asset options s0 = (inr tt, s1)
  ∧ publish E asset options s1 = (inr tt, s1).
Proof.
  intros Hinit Hexists.
  pose proof (resolved_keeps_init _ _ _ _ Hinit) as Hi.
  rewrite !publish_run, Hinit, (initOnce_memoized E asset None s1 i Hi). cbn zeta.
  by rewrite Hexists.
Qed.

(** ** Publishing *)

(** Publishing an image the registry does not hold.  After the resolution
    [publish] obtains a push handle; unless cancellation is requested by
    then, it announces the upload and pushes the resolved image URI once,
    and its outcome is the outcome of that push.  When cancellation is
    requested after the handle was obtained, nothing is announced and
    nothing is pushed. *)
Theorem publish_pushes s0 i s1 docker :
  initOnce E asset None s0 = (inr i, s1) →
  destinationAlreadyExists i = false →
  host_aborted E (calls s1) = false →
  let forPush :=
    dockerFactory_forEcrPush (repoUri i) (ecr i)
      (subprocessOutputDestination options) in
  let upload := host_emitMessage UPLOAD ("Push " +:+ imageUri i) in
  on_forEcrPush E (calls s1) (repoUri i) (ecr i)
    (subprocessOutputDestination options) = inr docker →
  publish E asset options s0 =
    if host_aborted E (calls s1 ++ [forPush])
    then (inr tt, after s1 [forPush])
    else (on_push E (calls s1 ++ [forPush; upload]) docker (imageUri i),
          after s1 [forPush; upload; docker_push docker (imageUri i)]).
Proof.
  intros Hinit Hexists Hrunning forPush upload Hdocker.
  rewrite publish_run, Hinit. cbn zeta. by rewrite Hexists, Hrunning, Hdocker.
Qed.

(** ** Building *)

Section Building.
Context (s0 s1 : State) (i : ContainerImageAssetHandlerInit) (docker : Docker).
Hypothesis Hinit : initOnce E asset None s0 = (inr i, s1).
Hypothesis Hexists : destinationAlreadyExists i = false.
Hypothesis Hrunning : host_aborted E (calls s1) = false.
Hypothesis Hdocker :
  on_forBuild E (calls s1) (repoUri i) (ecr i)
    (subprocessOutputDestination options) = inr docker.

Lemma build_started :
  build E workDir asset options s0 =
    let forBuild :=
      dockerFactory_forBuild (repoUri i) (ecr i)
        (subprocessOutputDestination options) in
    match builder_build E workDir asset docker (after s1 [forBuild]) with
    | (inl e, s2) => (inl e, s2)
    | (inr None, s2) => (inr tt, s2)
    | (inr (Some localTagName), s2) =>
        if host_aborted E (calls s2) then (inr tt, s2)
        else (on_tag E (calls s2) docker localTagName (imageUri i),
              after s2 [docker_tag docker localTagName (imageUri i)])
    end.
Proof. rewrite build_run, Hinit. cbn zeta. by rewrite Hexists, Hrunning, Hdocker. Qed.

End Building.





End Handler.
End WithEnv.

(** ** The operations on concrete accounts *)

Section Examples.
Import ContainerFixtures HandlerFixtures.

(** A build against a registry that does not hold the image. *)
Lemma build_never_pushes_witness :
  Forall (λ c, registry_mutation c = false)
    (calls (build bootstrapped "/work" asset_with_directory handler_options fresh).2).
Proof.
  destruct (build_never_pushes bootstrapped "/work" asset_with_directory
              handler_options fresh _ _ eq_refl) as (l & Hl & Hall).
  vm_compute in Hl. subst l. exact Hall.
Defined.

Lemma publish_never_builds_witness :
  Forall (λ c, build_engine_call c = false ∧ external_command c = false)
    (calls (publish bootstrapped asset_with_directory handler_options fresh).2).
Proof.
  destruct (publish_never_builds bootstrapped asset_with_directory
              handler_options fresh _ _ eq_refl) as (l & Hl & Hall).
  vm_compute in Hl. subst l. exact Hall.
Defined.

Lemma isPublished_only_resolves_witness :
  Forall (λ c, registry_mutation c = false)
    (calls (isPublished bootstrapped asset_with_directory fresh).2).
Proof.
  destruct (isPublished_only_resolves bootstrapped asset_with_directory
              fresh _ _ eq_refl) as (l & Hl & Hall).
  vm_compute in Hl. subst l.
  eapply Forall_impl; [exact Hall|]. by intros c (_ & _ & _ & Hc).
Defined.

(** The three operations on a handler that was resolved before. *)
Lemma resolved_once_witness :
  init (build bootstrapped "/work" asset_with_directory handler_options
          (resolved false)).2 = Some (resolved_init false)
  ∧ init (publish bootstrapped asset_with_directory handler_options
            (resolved false)).2 = Some (resolved_init false)
  ∧ init (isPublished bootstrapped asset_with_directory (resolved false)).2
    = Some (resolved_init false).
Proof.
  destruct (resolved_once bootstrapped "/work" asset_with_directory handler_options
              (resolved false) (resolved_init false) eq_refl)
    as ((Hbuild & _) & (Hpublish & _) & (HisPublished & _)).
  by repeat split.
Defined.

(** After a push that succeeded, [isPublished] still answers [false]. *)
Lemma isPublished_not_refreshed_witness :
  ∃ s1,
    publish bootstrapped asset_with_directory handler_options fresh = (inr tt, s1)
    ∧ last (calls s1) = Some (docker_push 3%N (registry_uri +:+ ":latest"))
    ∧ isPublished bootstrapped asset_with_directory s1 = (inr false, s1).
Proof.
  eexists. split; [reflexivity|]. split; [reflexivity|].
  exact (isPublished_not_refreshed bootstrapped "/work" asset_with_directory
           handler_options fresh _ _ (inr tt) _ eq_refl (or_intror eq_refl)).
Defined.

Lemma published_then_nothing_to_do_witness :
  ∃ s',
    isPublished (account (inr tt) false) asset_with_directory fresh = (inr true, s')
    ∧ build (account (inr tt) false) "/work" asset_with_directory handler_options s'
      = (inr tt, s')
    ∧ publish (account (inr tt) false) asset_with_directory handler_options s'
      = (inr tt, s').
Proof.
  eexists. split; [reflexivity|].
  exact (published_then_nothing_to_do (account (inr tt) false) "/work"
           asset_with_directory handler_options fresh _ eq_refl).
Defined.

(** An account that was not bootstrapped. *)
Lemma initOnce_without_repository_witness :
  ∃ s',
    initOnce unbootstrapped asset_with_directory None fresh
    = (inl (Error "No ECR repository named 'myrepo' in account 123456789012. Is this account bootstrapped?"),
       s')
    ∧ init s' = None.
Proof.
  destruct (initOnce_without_repository unbootstrapped asset_with_directory None
              fresh _ _ eq_refl eq_refl eq_refl eq_refl)
    as (s' & Hrun & Hinit & _).
  exists s'. by split.
Defined.

Lemma resolution_failure_propagates_witness :
  (build unbootstrapped "/work" asset_with_directory handler_options fresh).1
  = inl (Error "No ECR repository named 'myrepo' in account 123456789012. Is this account bootstrapped?")
  ∧ (publish unbootstrapped asset_with_directory handler_options fresh).1
    = inl (Error "No ECR repository named 'myrepo' in account 123456789012. Is this account bootstrapped?").
Proof.
  destruct (resolution_failure_propagates unbootstrapped "/work"
              asset_with_directory handler_options fresh _ _ eq_refl)
    as (Hbuild & Hpublish & _).
  by rewrite Hbuild, Hpublish.
Defined.

(** Cancellation requested while the init state is resolved. *)
Lemma cancelled_at_entry_witness :
  ∃ s1,
    build (cancelled_after 5 bootstrapped) "/work" asset_with_directory
      handler_options fresh = (inr tt, s1)
    ∧ publish (cancelled_after 5 bootstrapped) asset_with_directory
        handler_options fresh = (inr tt, s1)
    ∧ length (calls s1) = 5.
Proof.
  eexists.
  destruct (cancelled_at_entry (cancelled_after 5 bootstrapped) "/work"
              asset_with_directory handler_options fresh _ _ eq_refl eq_refl)
    as (Hbuild & Hpublish).
  split; [exact Hbuild|]. split; [exact Hpublish|]. reflexivity.
Defined.

Lemma publish_skips_existing_witness :
  ∃ s1,
    publish (account (inr tt) false) asset_with_directory handler_options fresh
      = (inr tt, s1)
    ∧ publish (account (inr tt) false) asset_with_directory handler_options s1
      = (inr tt, s1)
    ∧ Forall (λ c, registry_mutation c = false) (calls s1).
Proof.
  eexists.
  destruct (publish_skips_existing (account (inr tt) false) asset_with_directory
              handler_options fresh _ _ eq_refl eq_refl) as (Hfirst & Hsecond).
  split; [exact Hfirst|]. split; [exact Hsecond|]. by repeat constructor.
Defined.

Lemma publish_pushes_witness :
  ∃ s1,
    publish bootstrapped asset_with_directory handler_options fresh = (inr tt, s1)
    ∧ filter (λ c, registry_mutation c = true) (calls s1)
      = [dockerFactory_forEcrPush registry_uri 1%N "stdio";
         docker_push 3%N (registry_uri +:+ ":latest")].
Proof.
  eexists.
  rewrite (publish_pushes bootstrapped asset_with_directory handler_options
             fresh _ _ 3%N eq_refl eq_refl eq_refl eq_refl).
  split; reflexivity.
Defined.





End Examples.

End ContainerMore.
